(** * The YOLOv5 detection pipeline of [src/services/yolov5Service.ts]

    A shallow embedding of the numeric part of the service (letterbox
    preprocessing, decoding of the raw output, class-aware non-maximum
    suppression, intersection over union) and of the call the detection
    hook makes on every tick.

    Numbers.  A JavaScript number is modelled as an exact rational extended
    with the three special values the code can produce: [NaN], [+Infinity]
    and [-Infinity].  Division by zero, [Infinity * 0], comparisons with
    [NaN] and [undefined] used as a number behave as in JavaScript.  The
    operations of [Num] are exact: they serve for what does not depend on
    rounding (which rows are read, what is compared with what, what is kept
    and in which order).  The operations of [Binary64] round every result
    to binary64, with overflow and gradual underflow: [calculateIoU] is
    given in both arithmetics, and the properties that rounding decides
    (its value on a box and itself, the range of its value) are stated of
    [Binary64.calculateIoU].  Rounding to binary32 when a value is stored
    in a [Float32Array] and the sign of zero are not modelled. *)

From Stdlib Require Import QArith Qround Lqa Qabs Qpower Floats.
From stdpp Require Import base option list strings sorting.

Local Open Scope Q_scope.

(** ** JavaScript numbers *)

Module Num.

Inductive number : Type :=
  | NaN : number
  | PInf : number
  | NInf : number
  | Fin (q : Q) : number.

(** Finite results are kept in lowest terms, so that two finite numbers are
    the same number exactly when they are equal as terms. *)
Definition fin (q : Q) : number := Fin (Qred q).

Definition of_Z (z : Z) : number := Fin (inject_Z z).
Definition of_nat (n : nat) : number := of_Z (Z.of_nat n).

Definition zero : number := Fin 0.
Definition one : number := Fin 1.

(** The sign of a rational, as the infinity it selects. *)
Definition inf_of_sign (c : comparison) : number :=
  match c with Gt => PInf | Lt => NInf | Eq => NaN end.

Definition sign_of (a : number) : comparison :=
  match a with
  | NaN => Eq
  | PInf => Gt
  | NInf => Lt
  | Fin q => q ?= 0
  end.

Definition sign_mul (c d : comparison) : comparison :=
  match c, d with
  | Eq, _ | _, Eq => Eq
  | Gt, Gt | Lt, Lt => Gt
  | _, _ => Lt
  end.

Definition add (a b : number) : number :=
  match a, b with
  | NaN, _ | _, NaN => NaN
  | PInf, NInf | NInf, PInf => NaN
  | PInf, _ | _, PInf => PInf
  | NInf, _ | _, NInf => NInf
  | Fin p, Fin q => fin (p + q)
  end.

Definition sub (a b : number) : number :=
  match a, b with
  | NaN, _ | _, NaN => NaN
  | PInf, PInf | NInf, NInf => NaN
  | PInf, _ | _, NInf => PInf
  | NInf, _ | _, PInf => NInf
  | Fin p, Fin q => fin (p - q)
  end.

Definition mul (a b : number) : number :=
  match a, b with
  | NaN, _ | _, NaN => NaN
  | Fin p, Fin q => fin (p * q)
  | _, _ => inf_of_sign (sign_mul (sign_of a) (sign_of b))
  end.

(** [x / 0] is an infinity of the sign of [x], [0 / 0] is [NaN], a finite
    number over an infinity is [0]. *)
Definition div (a b : number) : number :=
  match a, b with
  | NaN, _ | _, NaN => NaN
  | Fin p, Fin q =>
      if Qeq_bool q 0 then inf_of_sign (p ?= 0) else fin (p / q)
  | Fin _, _ => zero
  | _, Fin q =>
      if Qeq_bool q 0 then a else inf_of_sign (sign_mul (sign_of a) (q ?= 0))
  | _, _ => NaN
  end.

(** [a < b]; every comparison with [NaN] is false. *)
Definition ltb (a b : number) : bool :=
  match a, b with
  | NaN, _ | _, NaN => false
  | _, NInf => false
  | NInf, _ => true
  | PInf, _ => false
  | _, PInf => true
  | Fin p, Fin q => match p ?= q with Lt => true | _ => false end
  end.

Definition gtb (a b : number) : bool := ltb b a.

(** [a <= b]. *)
Definition leb (a b : number) : bool :=
  match a, b with
  | NaN, _ | _, NaN => false
  | NInf, _ => true
  | _, PInf => true
  | _, NInf => false
  | PInf, _ => false
  | Fin p, Fin q => match p ?= q with Gt => false | _ => true end
  end.

Definition geb (a b : number) : bool := leb b a.

(** [Math.min], [Math.max] and [Math.floor]. *)
Definition min (a b : number) : number :=
  match a, b with
  | NaN, _ | _, NaN => NaN
  | _, _ => if ltb b a then b else a
  end.

Definition max (a b : number) : number :=
  match a, b with
  | NaN, _ | _, NaN => NaN
  | _, _ => if ltb a b then b else a
  end.

Definition floor (a : number) : number :=
  match a with
  | Fin q => of_Z (Qfloor q)
  | _ => a
  end.

(** A number used as an array index: only a non-negative integer addresses
    an element. *)
Definition to_index (a : number) : option nat :=
  match a with
  | Fin q =>
      if Qeq_bool (inject_Z (Qfloor q)) q && (0 <=? Qfloor q)%Z
      then Some (Z.to_nat (Qfloor q)) else None
  | _ => None
  end.

(** The operand of [||]: [0] and [NaN] are falsy. *)
Definition truthy (a : number) : bool :=
  match a with
  | NaN => false
  | Fin q => negb (Qeq_bool q 0)
  | _ => true
  end.

End Num.

Export Num.

Declare Scope num_scope.
Delimit Scope num_scope with num.
Bind Scope num_scope with number.
Infix "+" := Num.add : num_scope.
Infix "-" := Num.sub : num_scope.
Infix "*" := Num.mul : num_scope.
Infix "/" := Num.div : num_scope.
Infix "<?" := Num.ltb : num_scope.
Infix ">?" := Num.gtb (at level 70) : num_scope.
Infix ">=?" := Num.geb (at level 70) : num_scope.

(** ** The model configuration *)

Record ModelConfig := {
  modelUrl : string;
  inputShape : list nat;
  scoreThreshold : number;
  iouThreshold : number;
  classNames : list string
}.

Definition modelConfig : ModelConfig := {|
  modelUrl := "/models/yolov5s.onnx";
  inputShape := [1; 3; 640; 640]%nat;
  scoreThreshold := Fin (45 # 100);
  iouThreshold := Fin (45 # 100);
  classNames := [
    "person"; "bicycle"; "car"; "motorcycle"; "airplane"; "bus"; "train"; "truck"; "boat";
    "traffic light"; "fire hydrant"; "stop sign"; "parking meter"; "bench"; "bird"; "cat";
    "dog"; "horse"; "sheep"; "cow"; "elephant"; "bear"; "zebra"; "giraffe"; "backpack";
    "umbrella"; "handbag"; "tie"; "suitcase"; "frisbee"; "skis"; "snowboard"; "sports ball";
    "kite"; "baseball bat"; "baseball glove"; "skateboard"; "surfboard"; "tennis racket";
    "bottle"; "wine glass"; "cup"; "fork"; "knife"; "spoon"; "bowl"; "banana"; "apple";
    "sandwich"; "orange"; "broccoli"; "carrot"; "hot dog"; "pizza"; "donut"; "cake"; "chair";
    "couch"; "potted plant"; "bed"; "dining table"; "toilet"; "tv"; "laptop"; "mouse"; "remote";
    "keyboard"; "cell phone"; "microwave"; "oven"; "toaster"; "sink"; "refrigerator"; "book";
    "clock"; "vase"; "scissors"; "teddy bear"; "hair drier"; "toothbrush"
  ]
|}.

(** ** Detection results *)

(** [box] is [[x, y, width, height]]. *)
Record Box := mkBox { box_x : number; box_y : number; box_width : number; box_height : number }.

(** [label] and [color] are read from arrays by index, so they are
    [undefined] ([None]) when the index is past the end. *)
Record DetectionResult := mkDetection {
  box : Box;
  label : option string;
  confidence : number;
  color : option string
}.

(** ** Intersection over union *)

Definition calculateIoU (box1 box2 : Box) : number :=
  let '(mkBox x1 y1 w1 h1) := box1 in
  let '(mkBox x2 y2 w2 h2) := box2 in
  let box1Right := (x1 + w1)%num in
  let box1Bottom := (y1 + h1)%num in
  let box2Right := (x2 + w2)%num in
  let box2Bottom := (y2 + h2)%num in
  let intersectLeft := Num.max x1 x2 in
  let intersectTop := Num.max y1 y2 in
  let intersectRight := Num.min box1Right box2Right in
  let intersectBottom := Num.min box1Bottom box2Bottom in
  if (intersectRight <? intersectLeft)%num || (intersectBottom <? intersectTop)%num
  then zero
  else
    let intersectArea :=
      ((intersectRight - intersectLeft) * (intersectBottom - intersectTop))%num in
    let box1Area := (w1 * h1)%num in
    let box2Area := (w2 * h2)%num in
    let unionArea := (box1Area + box2Area - intersectArea)%num in
    (intersectArea / unionArea)%num.

(** ** Binary64 arithmetic *)

(** The arithmetic of [calculateIoU] as the engine performs it: every
    operation gives the exact result rounded to the nearest binary64 value,
    ties to even, with gradual underflow and overflow to an infinity.  A
    finite binary64 value is a rational [m * 2 ^ e] with [|m| < 2 ^ 53] and
    [-1074 <= e]; the sign of zero is not represented.  Comparisons,
    [Math.max] and [Math.min] do not round. *)
Module Binary64.

Definition pow2 (e : Z) : Q := 2 ^ e.

(** The nearest integer, the even one of the two when they are as near. *)
Definition round_even (q : Q) : Z :=
  let f := Qfloor q in
  match Qcompare (q - inject_Z f) (1 # 2) with
  | Lt => f
  | Gt => (f + 1)%Z
  | Eq => if Z.even f then f else (f + 1)%Z
  end.

(** The binary exponent of [q <> 0]: [2 ^ exponent q <= |q| < 2 ^ (exponent q + 1)]. *)
Definition exponent (q : Q) : Z :=
  let l := (Z.log2 (Z.abs (Qnum q)) - Z.log2 (Zpos (Qden q)))%Z in
  if Qle_bool (pow2 l) (Qabs q) then l else (l - 1)%Z.

(** The spacing of the binary64 values around [q] is [2 ^ e], for 53
    significant bits, and [2 ^ -1074] below the normal range. *)
Definition round (q : Q) : number :=
  if Qeq_bool q 0 then zero
  else
    let e := Z.max (exponent q - 52) (-1074) in
    let r := inject_Z (round_even (q / pow2 e)) * pow2 e in
    if Qle_bool (pow2 1024) (Qabs r) then inf_of_sign (Qcompare q 0) else fin r.

Definition rounded (a : number) : number :=
  match a with
  | Fin q => round q
  | _ => a
  end.

Definition add (a b : number) : number := rounded (a + b)%num.
Definition sub (a b : number) : number := rounded (a - b)%num.
Definition mul (a b : number) : number := rounded (a * b)%num.
Definition div (a b : number) : number := rounded (a / b)%num.


(** The integer multiple [n * 2 ^ s] of a power of two. *)
Definition grid (s n : Z) : number := fin (inject_Z n * pow2 s).

Definition calculateIoU (box1 box2 : Box) : number :=
  let '(mkBox x1 y1 w1 h1) := box1 in
  let '(mkBox x2 y2 w2 h2) := box2 in
  let box1Right := add x1 w1 in
  let box1Bottom := add y1 h1 in
  let box2Right := add x2 w2 in
  let box2Bottom := add y2 h2 in
  let intersectLeft := Num.max x1 x2 in
  let intersectTop := Num.max y1 y2 in
  let intersectRight := Num.min box1Right box2Right in
  let intersectBottom := Num.min box1Bottom box2Bottom in
  if (intersectRight <? intersectLeft)%num || (intersectBottom <? intersectTop)%num
  then zero
  else
    let intersectArea :=
      mul (sub intersectRight intersectLeft) (sub intersectBottom intersectTop) in
    let box1Area := mul w1 h1 in
    let box2Area := mul w2 h2 in
    let unionArea := sub (add box1Area box2Area) intersectArea in
    div intersectArea unionArea.

End Binary64.

(** The box of the four multiples [x], [y], [w] and [h] of [2 ^ s]. *)
Definition grid_box (s x y w h : Z) : Box :=
  mkBox (Binary64.grid s x) (Binary64.grid s y) (Binary64.grid s w) (Binary64.grid s h).

(** The number a primitive float of the proof assistant stands for: these
    floats are the binary64 values of the processor, with its
    operations. *)
Definition of_float (f : float) : number :=
  match Prim2SF f with
  | S754_zero _ => zero
  | S754_infinity sign => if sign then NInf else PInf
  | S754_nan => NaN
  | S754_finite sign m e =>
      fin ((if sign then - inject_Z (Zpos m) else inject_Z (Zpos m)) * Binary64.pow2 e)
  end.

(** ** Non-maximum suppression *)

(** [Array.prototype.sort] with a comparison function.  The language fixes
    the result, not the algorithm: for a consistent comparison function the
    array ends as its stable sorted rearrangement, which insertion from the
    right computes.  An element [x] stays before [y] unless the comparison
    function is positive at [(x, y)]; a [NaN] result counts as [0]. *)
Section ArraySort.
Context {A : Type} (comparefn : A -> A -> number).

Definition sortCompare (x y : A) : comparison := sign_of (comparefn x y).

Fixpoint sort_insert (x : A) (l : list A) : list A :=
  match l with
  | [] => [x]
  | y :: l' =>
      match sortCompare x y with
      | Gt => y :: sort_insert x l'
      | _ => x :: l
      end
  end.

Definition array_sort (l : list A) : list A := foldr sort_insert [] l.
End ArraySort.

(** [(a, b) => b.confidence - a.confidence] *)
Definition byConfidence (a b : DetectionResult) : number :=
  (confidence b - confidence a)%num.

(** Reading a flag of [isSelected]. *)
Definition flag (isSelected : list bool) (i : nat) : bool :=
  default false (isSelected !! i).

(** The body of the inner loop, at index [j], for the current box [i]. *)
Definition suppress_step (boxes : list DetectionResult) (iouThreshold : number)
    (i : nat) (isSelected : list bool) (j : nat) : list bool :=
  if flag isSelected j then isSelected
  else
    match boxes !! i, boxes !! j with
    | Some bi, Some bj =>
        if decide (label bi = label bj) then
          let iou := calculateIoU (box bi) (box bj) in
          if (iou >? iouThreshold)%num then <[j:=true]> isSelected else isSelected
        else isSelected
    | _, _ => isSelected
    end.

(** The body of the outer loop, at index [i], on the pair of
    [selectedBoxes] and [isSelected]. *)
Definition select_step (boxes : list DetectionResult) (iouThreshold : number)
    (st : list DetectionResult * list bool) (i : nat)
    : list DetectionResult * list bool :=
  let '(selectedBoxes, isSelected) := st in
  if flag isSelected i then st
  else
    match boxes !! i with
    | Some bi =>
        let selectedBoxes := selectedBoxes ++ [bi] in
        let isSelected := <[i:=true]> isSelected in
        (selectedBoxes,
         foldl (suppress_step boxes iouThreshold i) isSelected
               (seq (S i) (length boxes - S i)))
    | None => st
    end.

(** The call sorts the caller's array in place, so it yields two arrays:
    the caller's array as the call leaves it, and the returned
    [selectedBoxes]. *)
Definition nonMaxSuppression (boxes : list DetectionResult) (iouThreshold : number)
    : list DetectionResult * list DetectionResult :=
  let boxes := array_sort byConfidence boxes in
  let isSelected := replicate (length boxes) false in
  let '(selectedBoxes, _) :=
    foldl (select_step boxes iouThreshold) ([], isSelected) (seq 0 (length boxes)) in
  (boxes, selectedBoxes).

(** ** Decoding the raw output *)

(** An output tensor of the inference engine: its flat buffer and its
    shape. *)
Record Tensor := mkTensor { data : list number; dims : list nat }.

(** Reading a buffer as a number: past the end the read is [undefined],
    which compares and computes as [NaN]. *)
Definition get (predictions : list number) (k : nat) : number :=
  default NaN (predictions !! k).

Definition modelHeight : number := default NaN (of_nat <$> inputShape modelConfig !! 2%nat).
Definition modelWidth : number := default NaN (of_nat <$> inputShape modelConfig !! 3%nat).

(** The scan for the class of highest score: the pair is
    [(maxClassScore, maxClassIndex)]. *)
Definition scan_step (predictions : list number) (baseOffset : nat)
    (st : number * nat) (j : nat) : number * nat :=
  let score := get predictions (baseOffset + j) in
  if (score >? fst st)%num then (score, (j - 5)%nat) else st.

Definition scan_classes (predictions : list number) (baseOffset dimensions : nat)
    : number * nat :=
  foldl (scan_step predictions baseOffset) (zero, 0%nat) (seq 5 (dimensions - 5)).

(** What row [i] pushes on [results], if anything. *)
Definition decode_row (colors : list string) (predictions : list number)
    (dimensions : nat) (imgWidth imgHeight confidenceThreshold : number) (i : nat)
    : option DetectionResult :=
  let baseOffset := (i * dimensions)%nat in
  let confidence := get predictions (baseOffset + 4) in
  if (confidence >? confidenceThreshold)%num then
    let '(maxClassScore, maxClassIndex) := scan_classes predictions baseOffset dimensions in
    let combinedScore := (confidence * maxClassScore)%num in
    if (combinedScore >? confidenceThreshold)%num then
      let x := get predictions baseOffset in
      let y := get predictions (baseOffset + 1) in
      let width := get predictions (baseOffset + 2) in
      let height := get predictions (baseOffset + 3) in
      let imageScaleX := (imgWidth / modelWidth)%num in
      let imageScaleY := (imgHeight / modelHeight)%num in
      let x := (x * modelWidth * imageScaleX)%num in
      let y := (y * modelHeight * imageScaleY)%num in
      let width := (width * modelWidth * imageScaleX)%num in
      let height := (height * modelHeight * imageScaleY)%num in
      let left := (x - width / Fin 2)%num in
      let top := (y - height / Fin 2)%num in
      Some {| box := mkBox left top width height;
              label := classNames modelConfig !! maxClassIndex;
              confidence := combinedScore;
              color := colors !! maxClassIndex |}
    else None
  else None.

Definition push_row (colors : list string) (predictions : list number)
    (dimensions : nat) (imgWidth imgHeight confidenceThreshold : number)
    (results : list DetectionResult) (i : nat) : list DetectionResult :=
  match decode_row colors predictions dimensions imgWidth imgHeight confidenceThreshold i with
  | Some d => results ++ [d]
  | None => results
  end.

(** The array [results] when the loop over the rows ends.  A shape with
    no second entry gives no iteration; a shape with no third entry makes
    every read [undefined], so no row passes. *)
Definition decode_rows (colors : list string) (output : list Tensor)
    (imgWidth imgHeight confidenceThreshold : number) : list DetectionResult :=
  match output with
  | [] => []
  | out0 :: _ =>
      let predictions := data out0 in
      let numDetections := default 0%nat (dims out0 !! 1%nat) in
      match dims out0 !! 2%nat with
      | Some dimensions =>
          foldl (push_row colors predictions dimensions imgWidth imgHeight confidenceThreshold)
                [] (seq 0 numDetections)
      | None => []
      end
  end.

Definition postprocess (colors : list string) (output : list Tensor)
    (imgWidth imgHeight confidenceThreshold : number) : list DetectionResult :=
  match output with
  | [] => []
  | _ =>
      let results := decode_rows colors output imgWidth imgHeight confidenceThreshold in
      snd (nonMaxSuppression results (iouThreshold modelConfig))
  end.

(** ** Asynchronous results *)

(** How the promise of an [async] method settles. *)
Inductive outcome (A : Type) : Type :=
  | Resolved (a : A)
  | Rejected (error : string).
Arguments Resolved {A} a.
Arguments Rejected {A} error.

(** ** Preprocessing *)

(** [data] is the RGBA byte buffer of the frame. *)
Record ImageData := mkImageData {
  img_data : list nat;
  img_width : nat;
  img_height : nat
}.

(** [imgData[origPos]]: [undefined] (here [NaN], which it becomes once
    divided) unless [origPos] addresses a byte of the buffer. *)
Definition read_byte (imgData : list nat) (origPos : number) : number :=
  match to_index origPos with
  | Some k => default NaN (of_nat <$> imgData !! k)
  | None => NaN
  end.

Section Letterbox.
Variables (height width : nat).
Variables (imgData : list nat) (imgWidth imgHeight : number).
Variables (resizeRatio resizedWidth resizedHeight offsetX offsetY : number).

Definition isInside (y x : nat) : bool :=
  (of_nat x >=? offsetX)%num
  && (of_nat x <? offsetX + resizedWidth)%num
  && (of_nat y >=? offsetY)%num
  && (of_nat y <? offsetY + resizedHeight)%num.

(** The body of the loop over [x], in row [y]. *)
Definition fill_pixel (y : nat) (inputData : list number) (x : nat) : list number :=
  if isInside y x then
    let origX := floor ((of_nat x - offsetX) / resizeRatio)%num in
    let origY := floor ((of_nat y - offsetY) / resizeRatio)%num in
    let origPos := ((origY * imgWidth + origX) * Fin 4)%num in
    let r := (read_byte imgData origPos / Fin 255)%num in
    let g := (read_byte imgData (origPos + Fin 1) / Fin 255)%num in
    let b := (read_byte imgData (origPos + Fin 2) / Fin 255)%num in
    let inputData := <[(0 * height * width + y * width + x)%nat := r]> inputData in
    let inputData := <[(1 * height * width + y * width + x)%nat := g]> inputData in
    <[(2 * height * width + y * width + x)%nat := b]> inputData
  else
    let inputData := <[(0 * height * width + y * width + x)%nat := zero]> inputData in
    let inputData := <[(1 * height * width + y * width + x)%nat := zero]> inputData in
    <[(2 * height * width + y * width + x)%nat := zero]> inputData.

(** The body of the loop over [y]. *)
Definition fill_row (inputData : list number) (y : nat) : list number :=
  foldl (fill_pixel y) inputData (seq 0 width).

Definition fill_image (inputData : list number) : list number :=
  foldl fill_row inputData (seq 0 height).
End Letterbox.

(** The body of [preprocess], with the four entries of
    [modelConfig.inputShape] as parameters.  A write past the end of a
    [Float32Array] is ignored, as [<[_:=_]>] does. *)
Definition letterbox (batch channels height width : nat) (imageData : ImageData)
    : list number :=
  let inputData := replicate (batch * channels * height * width) zero in
  let imgData := img_data imageData in
  let imgWidth := of_nat (img_width imageData) in
  let imgHeight := of_nat (img_height imageData) in
  let resizeRatio := Num.min (of_nat width / imgWidth)%num (of_nat height / imgHeight)%num in
  let resizedWidth := floor (imgWidth * resizeRatio)%num in
  let resizedHeight := floor (imgHeight * resizeRatio)%num in
  let offsetX := ((of_nat width - resizedWidth) / Fin 2)%num in
  let offsetY := ((of_nat height - resizedHeight) / Fin 2)%num in
  fill_image height width imgData imgWidth resizeRatio
             resizedWidth resizedHeight offsetX offsetY inputData.

(** [preprocess] has no [throw] and awaits nothing, so its promise always
    resolves.  The shape of [modelConfig] has four entries; the last case
    is never taken. *)
Definition preprocess (imageData : ImageData) : outcome (list number) :=
  match inputShape modelConfig with
  | [batch; channels; height; width] =>
      Resolved (letterbox batch channels height width imageData)
  | _ => Resolved []
  end.

(** ** The service *)

(** The inference engine is outside the repository: a session is what its
    [run] answers to an input buffer. *)
Record InferenceSession := mkSession {
  run : list number -> outcome (list Tensor)
}.

Record YOLOv5Service := mkService {
  session : option InferenceSession;
  modelLoading : bool;
  modelLoaded : bool;
  colors : list string
}.

(** What fetching the model file and creating a session from it gives. *)
Record Environment := mkEnvironment {
  createSession : outcome InferenceSession
}.

Definition loadModel (env : Environment) (svc : YOLOv5Service)
    : YOLOv5Service * outcome bool :=
  if modelLoaded svc then (svc, Resolved true)
  else if modelLoading svc then (svc, Resolved false)
  else
    match createSession env with
    | Resolved s =>
        (mkService (Some s) false true (colors svc), Resolved true)
    | Rejected error =>
        (mkService (session svc) false (modelLoaded svc) (colors svc),
         Rejected ("Failed to load YOLOv5 model: " +:+ error))
    end.

(** [confidenceThreshold || modelConfig.scoreThreshold], for an optional
    argument. *)
Definition threshold_or_default (confidenceThreshold : option number) : number :=
  match confidenceThreshold with
  | Some t => if truthy t then t else scoreThreshold modelConfig
  | None => scoreThreshold modelConfig
  end.

Definition detect (env : Environment) (svc : YOLOv5Service)
    (imageData : ImageData) (confidenceThreshold : option number)
    : YOLOv5Service * outcome (list DetectionResult) :=
  let '(svc, loaded) :=
    if modelLoaded svc then (svc, Resolved true) else loadModel env svc in
  match loaded with
  | Rejected error => (svc, Rejected error)
  | Resolved _ =>
      match preprocess imageData with
      | Rejected error => (svc, Rejected error)
      | Resolved preprocessedData =>
          match session svc with
          | None => (svc, Rejected "TypeError: session is null")
          | Some s =>
              match run s preprocessedData with
              | Rejected error => (svc, Rejected error)
              | Resolved output =>
                  (svc,
                   Resolved
                     (postprocess (colors svc) output
                        (of_nat (img_width imageData)) (of_nat (img_height imageData))
                        (threshold_or_default confidenceThreshold)))
              end
          end
      end
  end.

(** ** The detection hook *)

Module UseObjectDetection.

(** The parameters the consumer passes to the hook (the two element
    references apart). *)
Record ObjectDetectionProps := mkProps {
  isDetecting : bool;
  confidenceThreshold : option number;
  showBoundingBoxes : option bool;
  showLabels : option bool;
  detectionInterval : option nat
}.

(** One firing of the interval callback.  [frame] is [None] when the video
    is not ready; the state is the service and the published
    [detections]. *)
Definition tick (env : Environment) (props : ObjectDetectionProps)
    (frame : option ImageData) (st : YOLOv5Service * list DetectionResult)
    : YOLOv5Service * list DetectionResult :=
  let '(svc, detections) := st in
  match frame with
  | None => st
  | Some imageData =>
      let threshold := default (Fin (45 # 100)) (confidenceThreshold props) in
      match detect env svc imageData (Some threshold) with
      | (svc', Resolved results) => (svc', results)
      | (svc', Rejected _) => (svc', detections)
      end
  end.

End UseObjectDetection.

(** ** The vocabulary of the properties *)

(** The candidates of [postprocess] have a confidence above the threshold,
    so none is [NaN]; on such arrays the comparison function is a
    consistent one. *)
Definition no_nan (d : DetectionResult) : Prop := confidence d <> NaN.

(** [a] may stand before [b] in an array of descending confidence. *)
Definition desc (a b : DetectionResult) : Prop :=
  (confidence a >=? confidence b)%num = true.



(** The loops of [nonMaxSuppression] by position, over the sorted array
    [boxes], and their invariants. *)
Section LoopInvariants.
Variables (boxes : list DetectionResult) (iouThreshold : number).






(** The boxes pushed before index [i]. *)
Definition select_inv (i : nat) (st : list DetectionResult * list bool) : Prop :=
  st.1 `sublist_of` take i boxes.

End LoopInvariants.

(** ** Sample data *)

(** Two boxes apart, of distinct labels, the less confident first. *)
Definition unsorted_pair : list DetectionResult :=
  [ mkDetection (mkBox (Fin 0) (Fin 0) (Fin 10) (Fin 10)) (Some "person") (Fin (70 # 100)) None;
    mkDetection (mkBox (Fin 50) (Fin 50) (Fin 10) (Fin 10)) (Some "chair") (Fin (92 # 100)) None ].

(** Two boxes of one label and of IoU [0.6], the less confident first. *)
Definition same_label_pair : list DetectionResult :=
  [ mkDetection (mkBox (Fin 0) (Fin 0) (Fin 10) (Fin 6)) (Some "person") (Fin (70 # 100)) None;
    mkDetection (mkBox (Fin 0) (Fin 0) (Fin 10) (Fin 10)) (Some "person") (Fin (92 # 100)) None ].

(** The colors of a service: one for each of the 80 classes. *)
Definition sample_colors : list string := replicate 80 "#9B87F5".

(** Two rows of 85 values for one object: the same centre, class [0] for
    both, an IoU of [0.6] between the two boxes. *)
Definition two_rows : list Tensor :=
  [ mkTensor (map Fin [1 # 2; 1 # 2; 1 # 2; 3 # 10; 8 # 10; 9 # 10] ++ replicate 79 zero
              ++ map Fin [1 # 2; 1 # 2; 1 # 2; 1 # 2; 9 # 10; 9 # 10] ++ replicate 79 zero)
             [1; 2; 85]%nat ].

(** What the two rows decode to, for a frame of 640 by 480. *)
Definition candidate_low : DetectionResult :=
  mkDetection (mkBox (Fin 160) (Fin 168) (Fin 320) (Fin 144))
              (Some "person") (Fin (18 # 25)) (Some "#9B87F5").

Definition candidate_high : DetectionResult :=
  mkDetection (mkBox (Fin 160) (Fin 120) (Fin 320) (Fin 240))
              (Some "person") (Fin (81 # 100)) (Some "#9B87F5").

(** One row of 85 values: a box at the centre, a quarter of the input
    wide and high, of class [1]. *)
Definition one_row_tensor : Tensor :=
  mkTensor (map Fin [1 # 2; 1 # 2; 1 # 4; 1 # 4; 9 # 10; 0; 9 # 10; 1 # 10]
            ++ replicate 77 zero)
           [1; 1; 85]%nat.

Definition one_row : list Tensor := [one_row_tensor].

(** What the row decodes to, for a frame of 1280 by 720. *)
Definition one_row_detection : DetectionResult :=
  mkDetection (mkBox (Fin 480) (Fin 270) (Fin 320) (Fin 180))
              (Some "bicycle") (Fin (81 # 100)) (Some "#9B87F5").

(** A session that answers [output] to every input, a service that has
    loaded it, an environment with no model to fetch, a black frame of 640
    by 480, and a consumer that leaves every parameter to its default. *)
Definition constant_session (output : list Tensor) : InferenceSession :=
  mkSession (fun _ => Resolved output).

Definition loaded_service (s : InferenceSession) : YOLOv5Service :=
  mkService (Some s) false true sample_colors.

Definition no_model : Environment :=
  mkEnvironment (Rejected "Failed to fetch model: 404 Not Found").

Definition black_frame : ImageData :=
  mkImageData (replicate (4 * 640 * 480) 0%nat) 640 480.

Definition default_props : UseObjectDetection.ObjectDetectionProps :=
  UseObjectDetection.mkProps true None None None None.




(** One row of objectness [0.5] and of class score [0.5]: a candidate at a
    threshold of [0], none at [0.45]. *)
Definition half_row : list Tensor :=
  [ mkTensor (map Fin [1 # 2; 1 # 2; 1 # 4; 1 # 4; 1 # 2; 1 # 2] ++ replicate 79 zero)
             [1; 1; 85]%nat ].

(** Pairs of operands: decimal fractions, a tie, an overflow, subnormal
    results, a division by zero. *)
Definition float_samples : list (float * float) :=
  [ (0x1.999999999999ap-4, 0x1.999999999999ap-3);
    (0x1.3333333333333p-2, 0x1.6666666666666p-1);
    (0x1.999999999999ap-1, 0x1.ccccccccccccdp-1);
    (-0x1.999999999999ap-4, 0x1.3333333333333p-2);
    (0x1.4p+9, 0x1.34p+6);
    (0x1p+53, 0x1p+0);
    (0x1.1ccf385ebc8ap+1023, 0x1.4p+3);
    (0x1.fffffffffffffp+1023, 0x1.fffffffffffffp+1023);
    (0x0.0000000000001p-1022, 0x1.8p+1);
    (0x1.29ec7bbf3c7f6p-665, 0x1.bff2ee48e053p-537);
    (0x1p+0, 0x0p+0);
    (-0x1p+0, 0x0p+0);
    (0x0p+0, 0x0p+0) ]%float.

(** ** The vocabulary of the further properties *)

(** More invariants of the loops of [nonMaxSuppression], by position. *)
Section SuppressionInvariants.
Variables (boxes : list DetectionResult) (iouThreshold : number).




End SuppressionInvariants.

(** Three boxes of one label: the first is suppressed by the second, the
    third overlaps the second below the threshold. *)
Definition three_boxes : list DetectionResult :=
  [ mkDetection (mkBox (Fin 0) (Fin 0) (Fin 10) (Fin 6)) (Some "person") (Fin (70 # 100)) None;
    mkDetection (mkBox (Fin 0) (Fin 0) (Fin 10) (Fin 10)) (Some "person") (Fin (92 # 100)) None;
    mkDetection (mkBox (Fin 8) (Fin 8) (Fin 10) (Fin 10)) (Some "person") (Fin (80 # 100)) None ].

(** What the loops of [preprocess] write for one pixel of the target:
    the value of each plane, and the three writes. *)
Section LetterboxValues.
Variables (imgData : list nat) (imgWidth : number).
Variables (resizeRatio resizedWidth resizedHeight offsetX offsetY : number).

Definition written_value (channel y x : nat) : number :=
  if isInside resizedWidth resizedHeight offsetX offsetY y x then
    let origX := floor ((of_nat x - offsetX) / resizeRatio)%num in
    let origY := floor ((of_nat y - offsetY) / resizeRatio)%num in
    let origPos := ((origY * imgWidth + origX) * Fin 4)%num in
    match channel with
    | 0%nat => (read_byte imgData origPos / Fin 255)%num
    | 1%nat => (read_byte imgData (origPos + Fin 1) / Fin 255)%num
    | _ => (read_byte imgData (origPos + Fin 2) / Fin 255)%num
    end
  else zero.
End LetterboxValues.

Definition write_planes (height width : nat) (value : nat -> nat -> nat -> number)
    (y : nat) (inputData : list number) (x : nat) : list number :=
  let inputData := <[(0 * height * width + y * width + x)%nat := value 0%nat y x]> inputData in
  let inputData := <[(1 * height * width + y * width + x)%nat := value 1%nat y x]> inputData in
  <[(2 * height * width + y * width + x)%nat := value 2%nat y x]> inputData.

(** The value of plane [channel] at row [y] and column [x] of the target,
    for a frame: the parameters of the resize are those of [letterbox]. *)
Definition letterbox_pixel (height width : nat) (imageData : ImageData)
    (channel y x : nat) : number :=
  let imgData := img_data imageData in
  let imgWidth := of_nat (img_width imageData) in
  let imgHeight := of_nat (img_height imageData) in
  let resizeRatio := Num.min (of_nat width / imgWidth)%num (of_nat height / imgHeight)%num in
  let resizedWidth := floor (imgWidth * resizeRatio)%num in
  let resizedHeight := floor (imgHeight * resizeRatio)%num in
  let offsetX := ((of_nat width - resizedWidth) / Fin 2)%num in
  let offsetY := ((of_nat height - resizedHeight) / Fin 2)%num in
  written_value imgData imgWidth resizeRatio resizedWidth resizedHeight offsetX offsetY
                channel y x.

(** A frame as the canvas gives it: four bytes for each pixel. *)
Definition well_formed (imageData : ImageData) : Prop :=
  length (img_data imageData) = (4 * (img_width imageData * img_height imageData))%nat
  /\ Forall (fun byte => (byte <= 255)%nat) (img_data imageData).

(** [a] is a finite number of value [q]. *)
Definition is_value (a : number) (q : Q) : Prop := exists p, a = Fin p /\ p == q.

(** [a] is a finite number between [0] and [1]. *)
Definition in_unit (a : number) : Prop := exists q, a = Fin q /\ 0 <= q <= 1.

(** A grey frame of the size of the target. *)
Definition grey_frame : ImageData :=
  mkImageData (replicate (4 * (640 * 640)) 128%nat) 640 640.

(** Two buffers of bytes that differ in alpha bytes only. *)
Definition same_colours (imgData imgData' : list nat) : Prop :=
  forall k, (k mod 4 <> 3)%nat -> imgData !! k = imgData' !! k.

Definition finite (a : number) : bool :=
  match a with Fin _ => true | _ => false end.

(** ** The constructor of the service *)

Definition letters : string := "0123456789ABCDEF".

(** [Math.random] is the sequence of its draws, read by position.  One
    round of the loop of [getRandomColor] appends [letters[...]] to the
    colour, which is the text [undefined] when the index is not one of the
    string. *)
Definition color_step (random : nat -> number) (st : string * nat) (_ : nat)
    : string * nat :=
  let '(color, drawn) := st in
  let index := floor (random drawn * Fin 16)%num in
  let letter :=
    match to_index index with
    | Some k =>
        match String.get k letters with
        | Some ch => String ch EmptyString
        | None => "undefined"
        end
    | None => "undefined"
    end in
  (color +:+ letter, S drawn).

(** The colour, and the number of draws made so far. *)
Definition getRandomColor (random : nat -> number) (drawn : nat) : string * nat :=
  foldl (color_step random) ("#", drawn) (seq 0 6).

Definition push_color (random : nat -> number) (st : list string * nat) (_ : nat)
    : list string * nat :=
  let '(colors, drawn) := st in
  let '(color, drawn) := getRandomColor random drawn in
  (colors ++ [color], drawn).

(** [new YOLOv5Service()] *)
Definition constructor (random : nat -> number) : YOLOv5Service :=
  let '(colors, _) :=
    foldl (push_color random) ([], 0%nat) (seq 0 (length (classNames modelConfig))) in
  mkService None false false colors.

(** ** The vocabulary of the service and of the loop *)

(** Every draw is in [[0, 1)]. *)
Definition unit_draws (random : nat -> number) : Prop :=
  forall i, exists q, random i = Fin q /\ 0 <= q < 1.

Definition hex_digit (ch : Ascii.ascii) : Prop := ch ∈ String.list_ascii_of_string letters.

(** A [#] and six hexadecimal digits. *)
Definition hex_color (s : string) : Prop :=
  exists digits,
    length digits = 6%nat /\ Forall hex_digit digits
    /\ s = ("#" +:+ String.string_of_list_ascii digits).

(** No load is under way, and a loaded service has its session. *)
Definition settled (svc : YOLOv5Service) : Prop :=
  modelLoading svc = false /\ (modelLoaded svc = true -> is_Some (session svc)).

Definition above (threshold : number) (d : DetectionResult) : Prop :=
  (confidence d >? threshold)%num = true.

(** The interval callback fired once for each entry of [frames]. *)
Definition run_ticks (env : Environment) (props : UseObjectDetection.ObjectDetectionProps)
    (frames : list (option ImageData)) (st : YOLOv5Service * list DetectionResult)
    : YOLOv5Service * list DetectionResult :=
  foldl (fun st frame => UseObjectDetection.tick env props frame st) st frames.

(** An engine that answers the two rows, and one that fails. *)
Definition sample_env : Environment :=
  mkEnvironment (Resolved (constant_session two_rows)).

Definition failing_session : InferenceSession :=
  mkSession (fun _ => Rejected "inference failed").


(** * Properties *)

(** ** Numbers *)

Section NumberFacts.
Implicit Types (p q : Q) (a b c : number).

Lemma fin_eq p q : p == q -> fin p = fin q.
Proof. intros H. unfold fin. f_equal. by apply Qred_complete. Qed.

Lemma ltb_fin p q : (Fin p <? Fin q)%num = true <-> p < q.
Proof.
  simpl. destruct (Qcompare_spec p q) as [E|E|E]; split; try done.
  - intros H. rewrite E in H. by apply Qlt_irrefl in H.
  - intros H. exfalso. apply (Qlt_irrefl p). by apply (Qlt_trans p q p).
Qed.

Lemma ltb_fin_false p q : (Fin p <? Fin q)%num = false <-> q <= p.
Proof.
  rewrite <- not_true_iff_false, ltb_fin. split.
  - apply Qnot_lt_le.
  - intros H1 H2. by apply Qle_not_lt in H1.
Qed.

Lemma leb_fin p q : Num.leb (Fin p) (Fin q) = true <-> p <= q.
Proof.
  simpl. destruct (Qcompare_spec p q) as [E|E|E]; split; try done.
  - intros _. rewrite E. apply Qle_refl.
  - intros _. by apply Qlt_le_weak.
  - intros H. by apply Qle_not_lt in H.
Qed.

Lemma ltb_irrefl a : (a <? a)%num = false.
Proof. destruct a; try done. apply ltb_fin_false, Qle_refl. Qed.

Lemma ltb_asym a b : (a <? b)%num = true -> (b <? a)%num = false.
Proof.
  destruct a, b; try done. rewrite ltb_fin, ltb_fin_false. apply Qlt_le_weak.
Qed.


Lemma max_same a : Num.max a a = a.
Proof. destruct a; try done. unfold Num.max. by rewrite ltb_irrefl. Qed.

Lemma min_same a : Num.min a a = a.
Proof. destruct a; try done. unfold Num.min. by rewrite ltb_irrefl. Qed.

Lemma div_fin p q : ~ q == 0 -> (Fin p / Fin q)%num = fin (p / q).
Proof.
  intros H. simpl. destruct (Qeq_bool q 0) eqn:E; [|done].
  by apply Qeq_bool_eq in E.
Qed.

Lemma div_zero_zero p q : p == 0 -> q == 0 -> (Fin p / Fin q)%num = NaN.
Proof.
  intros Hp Hq. simpl. apply Qeq_eq_bool in Hq. rewrite Hq.
  apply Qeq_alt in Hp. by rewrite Hp.
Qed.

Lemma of_nat_0 : of_nat 0 = zero.
Proof. reflexivity. Qed.

(** [Math.floor(0 * r)] is [0], or [NaN] when [r] is not finite. *)
Lemma floor_zero_mul a : floor (zero * a)%num = zero \/ floor (zero * a)%num = NaN.
Proof.
  destruct a as [| | |q]; simpl; auto.
Qed.

(** The half-open interval from [b] of length [0] (or [NaN]) has no
    element. *)
Lemma interval_empty a b c :
  c = zero \/ c = NaN -> (a >=? b)%num && (a <? b + c)%num = false.
Proof.
  intros [-> | ->].
  - destruct a as [| | |p], b as [| | |q]; try done.
    unfold geb. destruct (Num.leb (Fin q) (Fin p)) eqn:E; [|done].
    apply leb_fin in E. cbn [andb Num.add zero].
    apply ltb_fin_false. rewrite Qred_correct. lra.
  - destruct a, b; try done; by rewrite andb_false_r.
Qed.
End NumberFacts.

(** ** Binary64 rounding *)

Section Binary64Facts.
Import Binary64.

Lemma pow2_pos e : 0 < pow2 e.
Proof. by apply Qpower_0_lt. Qed.

Lemma pow2_plus a b : pow2 (a + b) == pow2 a * pow2 b.
Proof. by apply Qpower_plus. Qed.

Lemma pow2_minus a b : pow2 (a - b) == pow2 a / pow2 b.
Proof. by apply Qpower_minus. Qed.

Lemma pow2_le a b : (a <= b)%Z -> pow2 a <= pow2 b.
Proof. intros H. by apply Qpower_le_compat_l. Qed.

Lemma pow2_lt a b : (a < b)%Z -> pow2 a < pow2 b.
Proof. intros H. by apply Qpower_lt_compat_l. Qed.

Lemma pow2_inject_Z n : (0 <= n)%Z -> inject_Z (2 ^ n) == pow2 n.
Proof. apply (Zpower_Qpower 2). Qed.

Lemma Qabs_inject_Z n : Qabs (inject_Z n) = inject_Z (Z.abs n).
Proof. reflexivity. Qed.

(** The lower bound of the exponent. *)
Lemma exponent_le q : ~ q == 0 -> pow2 (exponent q) <= Qabs q.
Proof.
  intros Hq. unfold exponent.
  set (l := (Z.log2 (Z.abs (Qnum q)) - Z.log2 (Z.pos (Qden q)))%Z).
  destruct (Qle_bool (pow2 l) (Qabs q)) eqn:E; [by apply Qle_bool_iff|].
  destruct q as [n d]. cbn [Qnum Qden] in l.
  assert (Hn : (0 < Z.abs n)%Z).
  { destruct (Z.eq_dec n 0%Z) as [->|]; [|lia]. by destruct Hq. }
  destruct (Z.log2_spec (Z.abs n) Hn) as [Ha _].
  destruct (Z.log2_spec (Z.pos d)) as [_ Hb]; [done|].
  pose proof (Z.log2_nonneg (Z.abs n)) as Ha0.
  pose proof (Z.log2_nonneg (Z.pos d)) as Hb0.
  set (a := Z.log2 (Z.abs n)) in *. set (b := Z.log2 (Z.pos d)) in *.
  change (Qabs (n # d)) with (Z.abs n # d). rewrite (Qmake_Qdiv (Z.abs n) d).
  apply Qle_shift_div_l; [done|].
  apply (Qle_trans _ (pow2 (l - 1) * pow2 (b + 1))).
  - apply Qmult_le_l; [apply pow2_pos|].
    rewrite <- pow2_inject_Z by lia. rewrite <- Zle_Qle. unfold Z.succ in Hb. lia.
  - rewrite <- pow2_plus. replace (l - 1 + (b + 1))%Z with a by (unfold l; lia).
    rewrite <- pow2_inject_Z by done. by rewrite <- Zle_Qle.
Qed.

(** The upper bound of the exponent. *)
Lemma exponent_lt q : ~ q == 0 -> Qabs q < pow2 (exponent q + 1).
Proof.
  intros Hq. unfold exponent.
  set (l := (Z.log2 (Z.abs (Qnum q)) - Z.log2 (Z.pos (Qden q)))%Z).
  destruct (Qle_bool (pow2 l) (Qabs q)) eqn:E.
  - destruct q as [n d]. cbn [Qnum Qden] in l.
    assert (Hn : (0 < Z.abs n)%Z).
    { destruct (Z.eq_dec n 0%Z) as [->|]; [|lia]. by destruct Hq. }
    destruct (Z.log2_spec (Z.abs n) Hn) as [_ Ha].
    destruct (Z.log2_spec (Z.pos d)) as [Hb _]; [done|].
    pose proof (Z.log2_nonneg (Z.abs n)) as Ha0.
    pose proof (Z.log2_nonneg (Z.pos d)) as Hb0.
    set (a := Z.log2 (Z.abs n)) in *. set (b := Z.log2 (Z.pos d)) in *.
    change (Qabs (n # d)) with (Z.abs n # d). rewrite (Qmake_Qdiv (Z.abs n) d).
    apply Qlt_shift_div_r; [done|].
    apply (Qlt_le_trans _ (pow2 (l + 1) * pow2 b)).
    + rewrite <- pow2_plus. replace (l + 1 + b)%Z with (a + 1)%Z by (unfold l; lia).
      rewrite <- pow2_inject_Z by lia. rewrite <- Zlt_Qlt. unfold Z.succ in Ha. lia.
    + apply Qmult_le_l; [apply pow2_pos|].
      rewrite <- pow2_inject_Z by done. by rewrite <- Zle_Qle.
  - replace (l - 1 + 1)%Z with l by lia. apply Qnot_le_lt. intros H.
    apply Qle_bool_iff in H. congruence.
Qed.

Lemma round_even_inject_Z q k : q == inject_Z k -> round_even q = k.
Proof.
  intros Hq. unfold round_even. rewrite (Qfloor_comp q _ Hq), Qfloor_Z.
  destruct (Qcompare_spec (q - inject_Z k) (1 # 2)) as [E|E|E]; [lra|done|lra].
Qed.

Lemma round_even_le q k : q <= inject_Z k -> (round_even q <= k)%Z.
Proof.
  intros Hq. unfold round_even.
  pose proof (Qfloor_le q) as Hf. pose proof (Qlt_floor q) as Hc.
  assert (Hfk : (Qfloor q <= k)%Z) by (rewrite Zle_Qle; lra).
  destruct (Qcompare_spec (q - inject_Z (Qfloor q)) (1 # 2)) as [E|E|E].
  - destruct (Z.even _); [done|].
    destruct (Z.eq_dec (Qfloor q) k) as [Ek|]; [|lia]. rewrite Ek in E. lra.
  - done.
  - destruct (Z.eq_dec (Qfloor q) k) as [Ek|]; [|lia]. rewrite Ek in E. lra.
Qed.

Lemma round_even_ge q k : inject_Z k <= q -> (k <= round_even q)%Z.
Proof.
  intros Hq. unfold round_even.
  assert (Hfk : (k <= Qfloor q)%Z).
  { rewrite <- (Qfloor_Z k). by apply Qfloor_resp_le. }
  destruct (Qcompare _ _); [destruct (Z.even _)|..]; lia.
Qed.

(** A multiple [n * 2 ^ s] with [|n| < 2 ^ 53], in the range of the
    exponents, is a binary64 value: rounding leaves it. *)
Lemma round_exact q n s :
  q == inject_Z n * pow2 s ->
  (Z.abs n < 2 ^ 53)%Z -> (-1074 <= s <= 971)%Z ->
  round q = fin q.
Proof.
  intros Hq Hn Hs. unfold round.
  destruct (Qeq_bool q 0) eqn:E0.
  { apply Qeq_bool_eq in E0. by rewrite (fin_eq q 0 E0). }
  apply Qeq_bool_neq in E0.
  assert (Habs : Qabs q == inject_Z (Z.abs n) * pow2 s).
  { rewrite Hq, Qabs_Qmult, Qabs_inject_Z. rewrite (Qabs_pos (pow2 s)); [done|].
    apply Qlt_le_weak, pow2_pos. }
  assert (Hlt : Qabs q < pow2 (53 + s)).
  { rewrite Habs, pow2_plus. apply Qmult_lt_r; [apply pow2_pos|].
    rewrite <- pow2_inject_Z by done. by rewrite <- Zlt_Qlt. }
  assert (He : (exponent q < 53 + s)%Z).
  { apply (Qpower_lt_compat_l_inv 2); [|done].
    apply (Qle_lt_trans _ (Qabs q)); [by apply exponent_le|done]. }
  set (e := Z.max (exponent q - 52) (-1074)). cbv zeta.
  assert (Hes : (e <= s)%Z) by (unfold e; lia).
  assert (Hdiv : q / pow2 e == inject_Z (n * 2 ^ (s - e))).
  { rewrite inject_Z_mult, pow2_inject_Z by lia. rewrite pow2_minus, Hq.
    field. pose proof (pow2_pos e). lra. }
  rewrite (round_even_inject_Z _ _ Hdiv).
  assert (Hr : inject_Z (n * 2 ^ (s - e)) * pow2 e == q).
  { rewrite <- Hdiv. field. pose proof (pow2_pos e). lra. }
  destruct (Qle_bool _ _) eqn:E.
  - apply Qle_bool_iff in E. rewrite Hr in E.
    assert (pow2 (53 + s) <= pow2 1024) by (apply pow2_le; lia). lra.
  - by apply fin_eq.
Qed.

(** A number between [0] and [1] is rounded to a number between [0] and
    [1]. *)
Lemma round_unit q : 0 <= q <= 1 -> exists r, round q = Fin r /\ 0 <= r <= 1.
Proof.
  intros [Hq0 Hq1]. unfold round.
  destruct (Qeq_bool q 0) eqn:E0; [exists 0; split; [done|lra]|].
  apply Qeq_bool_neq in E0.
  assert (He : (exponent q <= 0)%Z).
  { apply (Qpower_le_compat_l_inv 2); [|done].
    apply (Qle_trans _ (Qabs q)); [by apply exponent_le|].
    rewrite Qabs_pos by done. done. }
  set (e := Z.max (exponent q - 52) (-1074)). cbv zeta.
  assert (He0 : (e <= 0)%Z) by (unfold e; lia).
  pose proof (pow2_pos e) as Hpe.
  assert (Hinv : inject_Z (2 ^ (- e)) * pow2 e == 1).
  { rewrite pow2_inject_Z by lia. rewrite <- pow2_plus.
    by replace (- e + e)%Z with 0%Z by lia. }
  assert (Hlo : (0 <= round_even (q / pow2 e))%Z).
  { apply round_even_ge. apply Qle_shift_div_l; [done|]. change (inject_Z 0) with 0. lra. }
  assert (Hhi : (round_even (q / pow2 e) <= 2 ^ (- e))%Z).
  { apply round_even_le. apply Qle_shift_div_r; [done|]. lra. }
  set (m := round_even (q / pow2 e)) in *.
  rewrite Zle_Qle in Hlo, Hhi. change (inject_Z 0) with 0 in Hlo.
  assert (Hr0 : 0 <= inject_Z m * pow2 e) by nra.
  assert (Hr1 : inject_Z m * pow2 e <= 1) by nra.
  destruct (Qle_bool _ _) eqn:E.
  - apply Qle_bool_iff in E. rewrite Qabs_pos in E by done.
    assert (pow2 0 < pow2 1024) by (by apply pow2_lt).
    change (pow2 0) with 1 in *. lra.
  - eexists. split; [reflexivity|]. rewrite Qred_correct. done.
Qed.

End Binary64Facts.

(** ** Values on a grid *)

Section GridFacts.
Import Binary64.
Implicit Types (s t n m : Z) (p q : Q).

Lemma add_fin p q : (fin p + fin q)%num = fin (p + q).
Proof. unfold fin. cbn [Num.add]. apply fin_eq. by rewrite !Qred_correct. Qed.

Lemma sub_fin p q : (fin p - fin q)%num = fin (p - q).
Proof. unfold fin. cbn [Num.sub]. apply fin_eq. by rewrite !Qred_correct. Qed.

Lemma mul_fin p q : (fin p * fin q)%num = fin (p * q).
Proof. unfold fin. cbn [Num.mul]. apply fin_eq. by rewrite !Qred_correct. Qed.

Lemma grid_add s n m : (grid s n + grid s m)%num = grid s (n + m).
Proof. unfold grid. rewrite add_fin. apply fin_eq. rewrite inject_Z_plus. ring. Qed.

Lemma grid_sub s n m : (grid s n - grid s m)%num = grid s (n - m).
Proof.
  unfold grid. rewrite sub_fin. apply fin_eq.
  unfold Z.sub. rewrite inject_Z_plus, inject_Z_opp. ring.
Qed.

Lemma grid_mul s t n m : (grid s n * grid t m)%num = grid (s + t) (n * m).
Proof.
  unfold grid. rewrite mul_fin. apply fin_eq. rewrite inject_Z_mult, pow2_plus. ring.
Qed.

Lemma grid_ltb s n m : (grid s n <? grid s m)%num = (n <? m)%Z.
Proof.
  unfold grid, fin. pose proof (pow2_pos s) as Hs. destruct (Z.ltb_spec n m) as [H|H].
  - apply ltb_fin. rewrite !Qred_correct. apply Qmult_lt_r; [done|]. by rewrite <- Zlt_Qlt.
  - apply ltb_fin_false. rewrite !Qred_correct. apply Qmult_le_r; [done|].
    by rewrite <- Zle_Qle.
Qed.

Lemma grid_max s n m : Num.max (grid s n) (grid s m) = grid s (Z.max n m).
Proof.
  pose proof (grid_ltb s n m) as H. unfold grid, fin in *. unfold Num.max. rewrite H.
  destruct (Z.ltb_spec n m); [rewrite Z.max_r by lia|rewrite Z.max_l by lia]; done.
Qed.

Lemma grid_min s n m : Num.min (grid s n) (grid s m) = grid s (Z.min n m).
Proof.
  pose proof (grid_ltb s m n) as H. unfold grid, fin in *. unfold Num.min. rewrite H.
  destruct (Z.ltb_spec m n); [rewrite Z.min_r by lia|rewrite Z.min_l by lia]; done.
Qed.

Lemma rounded_grid s n :
  (Z.abs n < 2 ^ 53)%Z -> (-1074 <= s <= 971)%Z -> rounded (grid s n) = grid s n.
Proof.
  intros Hn Hs. unfold grid, fin. cbn [rounded].
  rewrite (round_exact _ n s) by (rewrite ?Qred_correct; done).
  apply fin_eq, Qred_correct.
Qed.

Lemma binary64_add_grid s n m :
  (Z.abs (n + m) < 2 ^ 53)%Z -> (-1074 <= s <= 971)%Z ->
  add (grid s n) (grid s m) = grid s (n + m).
Proof. intros Hn Hs. unfold add. rewrite grid_add. by apply rounded_grid. Qed.

Lemma binary64_sub_grid s n m :
  (Z.abs (n - m) < 2 ^ 53)%Z -> (-1074 <= s <= 971)%Z ->
  sub (grid s n) (grid s m) = grid s (n - m).
Proof. intros Hn Hs. unfold sub. rewrite grid_sub. by apply rounded_grid. Qed.

Lemma binary64_mul_grid s t n m :
  (Z.abs (n * m) < 2 ^ 53)%Z -> (-1074 <= s + t <= 971)%Z ->
  mul (grid s n) (grid t m) = grid (s + t) (n * m).
Proof. intros Hn Hs. unfold mul. rewrite grid_mul. by apply rounded_grid. Qed.

Lemma grid_positive s n : (0 < n)%Z -> exists q, grid s n = Fin q /\ 0 < q.
Proof.
  intros Hn. eexists. split; [reflexivity|]. rewrite Qred_correct.
  pose proof (pow2_pos s). rewrite Zlt_Qlt in Hn. change (inject_Z 0) with 0 in Hn. nra.
Qed.

Lemma grid_finite s n : exists q, grid s n = Fin q.
Proof. by eexists. Qed.

End GridFacts.

(** On boxes whose values are multiples of one power of two, small enough
    for every sum and product to be a binary64 value, the only rounding of
    [calculateIoU] is that of the final division. *)
Lemma calculateIoU_on_grid s x1 y1 w1 h1 x2 y2 w2 h2 :
  (-537 <= s <= 485)%Z ->
  (Z.abs x1 < 2 ^ 26)%Z -> (Z.abs y1 < 2 ^ 26)%Z ->
  (0 <= w1 < 2 ^ 26)%Z -> (0 <= h1 < 2 ^ 26)%Z ->
  (Z.abs x2 < 2 ^ 26)%Z -> (Z.abs y2 < 2 ^ 26)%Z ->
  (0 <= w2 < 2 ^ 26)%Z -> (0 <= h2 < 2 ^ 26)%Z ->
  Binary64.calculateIoU (grid_box s x1 y1 w1 h1) (grid_box s x2 y2 w2 h2)
  = Binary64.rounded (calculateIoU (grid_box s x1 y1 w1 h1) (grid_box s x2 y2 w2 h2)).
Proof.
  intros Hs Hx1 Hy1 Hw1 Hh1 Hx2 Hy2 Hw2 Hh2.
  unfold Binary64.calculateIoU, calculateIoU, grid_box.
  change (2 ^ 26)%Z with 67108864%Z in *.
  assert (H53 : (2 ^ 53 = 9007199254740992)%Z) by reflexivity.
  rewrite !grid_add, !binary64_add_grid by lia.
  rewrite !grid_max, !grid_min, !grid_ltb.
  destruct (_ || _) eqn:E; [done|].
  apply orb_false_elim in E as [Ex Ey]. apply Z.ltb_ge in Ex, Ey.
  set (a := (Z.min (x1 + w1) (x2 + w2) - Z.max x1 x2)%Z).
  set (b := (Z.min (y1 + h1) (y2 + h2) - Z.max y1 y2)%Z).
  assert (Ha : (0 <= a <= w1)%Z) by lia.
  assert (Hb : (0 <= b <= h1)%Z) by lia.
  assert (Hab : (0 <= a * b < 4503599627370496)%Z) by nia.
  assert (H1 : (0 <= w1 * h1 < 4503599627370496)%Z) by nia.
  assert (H2 : (0 <= w2 * h2 < 4503599627370496)%Z) by nia.
  assert (Hab1 : (a * b <= w1 * h1)%Z) by nia.
  rewrite !grid_sub. fold a b. rewrite !grid_mul, grid_add, grid_sub.
  rewrite !binary64_sub_grid by lia. fold a b.
  rewrite !binary64_mul_grid by lia.
  rewrite binary64_add_grid, binary64_sub_grid by lia.
  reflexivity.
Qed.

(** On the sample operands the four rounded operations give what the
    processor gives. *)
Example binary64_agrees_with_floats :
  Forall (fun '(x, y) =>
            Binary64.add (of_float x) (of_float y) = of_float (x + y)%float
            /\ Binary64.sub (of_float x) (of_float y) = of_float (x - y)%float
            /\ Binary64.mul (of_float x) (of_float y) = of_float (x * y)%float
            /\ Binary64.div (of_float x) (of_float y) = of_float (x / y)%float
            /\ Binary64.rounded (of_float x) = of_float x)
         float_samples.
Proof.
  unfold float_samples.
  repeat (apply Forall_cons_2; [by vm_compute|]). apply Forall_nil_2.
Qed.

(** ** Intersection over union *)

Example calculateIoU_half :
  calculateIoU (mkBox (Fin 0) (Fin 0) (Fin 2) (Fin 2)) (mkBox (Fin 0) (Fin 0) (Fin 2) (Fin 1))
  = Fin (1 # 2).
Proof. reflexivity. Qed.

(** Two boxes apart from each other, of any area, have an IoU of [0]: the
    early return covers them. *)
Example calculateIoU_apart :
  calculateIoU (mkBox (Fin 0) (Fin 0) zero zero) (mkBox (Fin 5) (Fin 5) zero zero) = zero.
Proof. reflexivity. Qed.

(** C3 (the code against the claim): for a box reduced to a point, taken
    with itself, the union area is [0], the early return for an empty
    intersection is not taken (its test is strict) and [calculateIoU]
    divides [0] by [0]: the result is [NaN], not [0]. *)
Theorem calculateIoU_point_is_NaN (x y : Q) :
  let b := mkBox (Fin x) (Fin y) zero zero in
  (box_width b * box_height b + box_width b * box_height b)%num = zero
  /\ calculateIoU b b = NaN.
Proof.
  split; [reflexivity|].
  unfold calculateIoU. rewrite !max_same, !min_same. cbn [Num.add zero].
  assert (Gx : (fin (x + 0) <? Fin x)%num = false).
  { apply ltb_fin_false. rewrite Qred_correct. lra. }
  assert (Gy : (fin (y + 0) <? Fin y)%num = false).
  { apply ltb_fin_false. rewrite Qred_correct. lra. }
  rewrite Gx, Gy. cbn [orb].
  repeat (progress (unfold fin; cbn [Num.sub Num.mul Num.add])).
  apply div_zero_zero; rewrite !Qred_correct; ring.
Qed.





(** ** Preprocessing *)

Lemma foldl_fixed {A B} (f : A -> B -> A) (a : A) (l : list B) :
  (forall x, f a x = a) -> foldl f a l = a.
Proof. intros H. induction l as [|x l IH]; [done|]. simpl. by rewrite H. Qed.

(** Outside the resized area, a pixel of a zero-filled buffer is written
    with zeros: the buffer is unchanged. *)
Lemma fill_pixel_outside height width imgData imgWidth resizeRatio
    resizedWidth resizedHeight offsetX offsetY y x n :
  isInside resizedWidth resizedHeight offsetX offsetY y x = false ->
  fill_pixel height width imgData imgWidth resizeRatio
             resizedWidth resizedHeight offsetX offsetY y (replicate n zero) x
  = replicate n zero.
Proof.
  intros Hout. unfold fill_pixel. rewrite Hout. by rewrite !insert_replicate.
Qed.

(** With a frame of width or height [0], no pixel of the target is inside
    the resized area, whatever the target shape. *)
Lemma isInside_zero_sized height width (imageData : ImageData) y x :
  img_width imageData = 0%nat \/ img_height imageData = 0%nat ->
  let imgWidth := of_nat (img_width imageData) in
  let imgHeight := of_nat (img_height imageData) in
  let resizeRatio := Num.min (of_nat width / imgWidth)%num (of_nat height / imgHeight)%num in
  let resizedWidth := floor (imgWidth * resizeRatio)%num in
  let resizedHeight := floor (imgHeight * resizeRatio)%num in
  let offsetX := ((of_nat width - resizedWidth) / Fin 2)%num in
  let offsetY := ((of_nat height - resizedHeight) / Fin 2)%num in
  isInside resizedWidth resizedHeight offsetX offsetY y x = false.
Proof.
  intros Hzero imgWidth imgHeight resizeRatio resizedWidth resizedHeight offsetX offsetY.
  unfold isInside. destruct Hzero as [Hw | Hh].
  - assert (Hr : resizedWidth = zero \/ resizedWidth = NaN).
    { unfold resizedWidth, imgWidth. rewrite Hw, of_nat_0. apply floor_zero_mul. }
    by rewrite (interval_empty (of_nat x) offsetX resizedWidth Hr).
  - assert (Hr : resizedHeight = zero \/ resizedHeight = NaN).
    { unfold resizedHeight, imgHeight. rewrite Hh, of_nat_0. apply floor_zero_mul. }
    rewrite <- andb_assoc.
    rewrite (interval_empty (of_nat y) offsetY resizedHeight Hr).
    apply andb_false_r.
Qed.

Lemma letterbox_zero_sized batch channels height width (imageData : ImageData) :
  img_width imageData = 0%nat \/ img_height imageData = 0%nat ->
  letterbox batch channels height width imageData
  = replicate (batch * channels * height * width) zero.
Proof.
  intros Hzero. unfold letterbox, fill_image.
  apply foldl_fixed. intros y. unfold fill_row.
  apply foldl_fixed. intros x.
  apply fill_pixel_outside. by apply isInside_zero_sized.
Qed.

Lemma preprocess_resolved (imageData : ImageData) :
  preprocess imageData = Resolved (letterbox 1 3 640 640 imageData).
Proof. reflexivity. Qed.

(** A frame of the size of the target is copied pixel for pixel. *)
Example letterbox_same_size :
  letterbox 1 3 2 2
    (mkImageData [255; 0; 0; 255; 0; 255; 0; 255; 0; 0; 51; 255; 0; 0; 0; 255]%nat 2 2)
  = [one; zero; zero; zero; zero; one; zero; zero; zero; zero; Fin (1 # 5); zero].
Proof. reflexivity. Qed.

(** C5 (counterexample): for the empty frame, of width and height [0],
    the promise of [preprocess] resolves, with a buffer of zeros; it is not
    rejected. *)
Lemma preprocess_empty_frame_resolves :
  let frame := mkImageData [] 0 0 in
  (img_width frame = 0%nat /\ img_height frame = 0%nat)
  /\ preprocess frame = Resolved (replicate (1 * 3 * 640 * 640) zero)
  /\ forall error, preprocess frame <> Rejected error.
Proof.
  split; [done|]. rewrite preprocess_resolved.
  rewrite letterbox_zero_sized by (by left). by split.
Qed.

(** C5 (amended): [preprocess] has no failure: for every frame whose
    width or height is [0] its promise resolves with the buffer of
    [1 * 3 * 640 * 640] zeros (the whole target is padding). *)
Theorem preprocess_zero_sized (imageData : ImageData) :
  img_width imageData = 0%nat \/ img_height imageData = 0%nat ->
  preprocess imageData = Resolved (replicate (1 * 3 * 640 * 640) zero).
Proof.
  intros Hzero. rewrite preprocess_resolved. by rewrite letterbox_zero_sized.
Qed.

Lemma preprocess_zero_sized_witness :
  preprocess (mkImageData [12; 34; 56; 255]%nat 0 480)
  = Resolved (replicate (1 * 3 * 640 * 640) zero).
Proof. apply preprocess_zero_sized. by left. Defined.

(** ** The threshold of [detect] *)

Lemma detect_loaded env svc imageData confidenceThreshold s output :
  modelLoaded svc = true ->
  session svc = Some s ->
  run s (letterbox 1 3 640 640 imageData) = Resolved output ->
  detect env svc imageData confidenceThreshold
  = (svc,
     Resolved (postprocess (colors svc) output
                 (of_nat (img_width imageData)) (of_nat (img_height imageData))
                 (threshold_or_default confidenceThreshold))).
Proof.
  intros Hloaded Hs Hrun. unfold detect.
  by rewrite Hloaded, preprocess_resolved, Hs, Hrun.
Qed.

(** C9: [detect] called with a confidence threshold of [0] postprocesses
    with the default [0.45]: on a loaded service whose session answers
    [output], the call resolves with [postprocess] of [output] at [0.45].
    On every service the call is the call with [0.45], and the call with
    no threshold.  And a caller cannot have the decoding at [0]: for some
    loaded service the call does not resolve with [postprocess] of the
    output at [0]. *)
Theorem detect_zero_threshold_is_default :
  threshold_or_default (Some zero) = Fin (45 # 100)
  /\ (forall env svc imageData s output,
        modelLoaded svc = true ->
        session svc = Some s ->
        run s (letterbox 1 3 640 640 imageData) = Resolved output ->
        detect env svc imageData (Some zero)
        = (svc,
           Resolved (postprocess (colors svc) output
                       (of_nat (img_width imageData)) (of_nat (img_height imageData))
                       (Fin (45 # 100)))))
  /\ (forall env svc imageData,
        detect env svc imageData (Some zero)
        = detect env svc imageData (Some (Fin (45 # 100))))
  /\ (forall env svc imageData,
        detect env svc imageData (Some zero) = detect env svc imageData None)
  /\ (exists env svc imageData s output,
        modelLoaded svc = true
        /\ session svc = Some s
        /\ run s (letterbox 1 3 640 640 imageData) = Resolved output
        /\ detect env svc imageData (Some zero)
           <> (svc,
               Resolved (postprocess (colors svc) output
                           (of_nat (img_width imageData)) (of_nat (img_height imageData))
                           zero))).
Proof.
  split; [reflexivity|]. split; [|split; [|split]].
  - intros env svc imageData s output Hloaded Hs Hrun.
    by rewrite (detect_loaded env svc imageData _ s output).
  - intros env svc imageData. unfold detect.
    by replace (threshold_or_default (Some zero))
      with (threshold_or_default (Some (Fin (45 # 100)))) by reflexivity.
  - intros env svc imageData. unfold detect.
    by replace (threshold_or_default (Some zero))
      with (threshold_or_default None) by reflexivity.
  - exists no_model, (loaded_service (constant_session half_row)), black_frame,
      (constant_session half_row), half_row.
    split; [done|]. split; [done|]. split; [done|].
    rewrite (detect_loaded _ _ _ _ (constant_session half_row) half_row) by done.
    by vm_compute.
Qed.

Lemma detect_zero_threshold_is_default_witness :
  detect no_model (loaded_service (constant_session two_rows)) black_frame (Some zero)
  = (loaded_service (constant_session two_rows),
     Resolved (postprocess sample_colors two_rows (of_nat 640) (of_nat 480) (Fin (45 # 100)))).
Proof.
  destruct detect_zero_threshold_is_default as (_ & Hloaded & _).
  apply (Hloaded no_model (loaded_service (constant_session two_rows)) black_frame
           (constant_session two_rows) two_rows); reflexivity.
Defined.

(** ** Sorting by confidence *)

Lemma sign_sub_Gt (a b : number) :
  a <> NaN -> b <> NaN -> sign_of (b - a)%num = Gt <-> (a <? b)%num = true.
Proof.
  intros Ha Hb. destruct a as [| | |p], b as [| | |q]; try done.
  rewrite ltb_fin. cbn [Num.sub fin sign_of]. rewrite Qred_correct.
  rewrite <- Qgt_alt. split; intros H; lra.
Qed.

Lemma geb_total (a b : number) :
  a <> NaN -> b <> NaN -> (a <? b)%num = false -> (a >=? b)%num = true.
Proof.
  intros Ha Hb. destruct a as [| | |p], b as [| | |q]; try done.
  rewrite ltb_fin_false. unfold geb. by rewrite leb_fin.
Qed.

Lemma ltb_geb (a b : number) : (a <? b)%num = true -> (b >=? a)%num = true.
Proof.
  destruct a as [| | |p], b as [| | |q]; try done.
  rewrite ltb_fin. unfold geb. rewrite leb_fin. apply Qlt_le_weak.
Qed.

Lemma geb_trans (a b c : number) :
  (a >=? b)%num = true -> (b >=? c)%num = true -> (a >=? c)%num = true.
Proof.
  unfold geb. destruct a as [| | |p], b as [| | |q], c as [| | |r]; try done.
  rewrite !leb_fin. intros H1 H2. by apply (Qle_trans r q p).
Qed.

Lemma desc_trans (a b c : DetectionResult) : desc a b -> desc b c -> desc a c.
Proof. unfold desc. intros H1 H2. by apply (geb_trans _ (confidence b)). Qed.

Lemma byConfidence_swap (x y : DetectionResult) :
  no_nan x -> no_nan y -> sortCompare byConfidence x y = Gt -> desc y x.
Proof.
  unfold sortCompare, byConfidence, desc. intros Hx Hy H.
  apply sign_sub_Gt in H; [|done..]. by apply ltb_geb.
Qed.

Lemma byConfidence_keep (x y : DetectionResult) :
  no_nan x -> no_nan y -> sortCompare byConfidence x y <> Gt -> desc x y.
Proof.
  unfold sortCompare, byConfidence, desc. intros Hx Hy H.
  apply geb_total; [done..|].
  apply not_true_is_false. intros Hlt. by apply sign_sub_Gt in Hlt.
Qed.

Section SortFacts.
Context {A : Type} (comparefn : A -> A -> number).

Lemma sort_insert_perm (x : A) (l : list A) : sort_insert comparefn x l ≡ₚ x :: l.
Proof.
  induction l as [|y l IH]; [done|]. simpl.
  destruct (sortCompare comparefn x y); try done.
  rewrite IH. apply Permutation_swap.
Qed.

Lemma array_sort_perm (l : list A) : array_sort comparefn l ≡ₚ l.
Proof.
  induction l as [|x l IH]; [done|].
  change (array_sort comparefn (x :: l))
    with (sort_insert comparefn x (array_sort comparefn l)).
  by rewrite sort_insert_perm, IH.
Qed.

End SortFacts.

Lemma sort_insert_sorted (x : DetectionResult) (l : list DetectionResult) :
  no_nan x -> Forall no_nan l -> StronglySorted desc l ->
  StronglySorted desc (sort_insert byConfidence x l).
Proof.
  intros Hx Hl Hs. induction Hs as [|y l Hs IH Hy]; simpl.
  - repeat constructor.
  - apply Forall_cons in Hl as [Hny Hl].
    destruct (sortCompare byConfidence x y) eqn:E.
    + constructor; [by constructor|].
      assert (Hxy : desc x y) by (apply byConfidence_keep; [done..|by rewrite E]).
      constructor; [done|].
      eapply Forall_impl; [exact Hy|]. intros z Hz. by apply (desc_trans x y z).
    + constructor; [by constructor|].
      assert (Hxy : desc x y) by (apply byConfidence_keep; [done..|by rewrite E]).
      constructor; [done|].
      eapply Forall_impl; [exact Hy|]. intros z Hz. by apply (desc_trans x y z).
    + constructor; [by apply IH|].
      rewrite sort_insert_perm. constructor; [|done].
      by apply byConfidence_swap.
Qed.

Lemma array_sort_sorted (l : list DetectionResult) :
  Forall no_nan l -> StronglySorted desc (array_sort byConfidence l).
Proof.
  induction l as [|x l IH]; intros Hl; [constructor|].
  apply Forall_cons in Hl as [Hx Hl].
  change (array_sort byConfidence (x :: l))
    with (sort_insert byConfidence x (array_sort byConfidence l)).
  apply sort_insert_sorted; [done| |by apply IH].
  by rewrite array_sort_perm.
Qed.

(** ** Non-maximum suppression *)

Lemma nonMaxSuppression_fst boxes iouThreshold :
  fst (nonMaxSuppression boxes iouThreshold) = array_sort byConfidence boxes.
Proof. unfold nonMaxSuppression. by destruct (foldl _ _ _). Qed.

Lemma nonMaxSuppression_snd boxes iouThreshold :
  let sorted := array_sort byConfidence boxes in
  snd (nonMaxSuppression boxes iouThreshold)
  = fst (foldl (select_step sorted iouThreshold)
               ([], replicate (length sorted) false) (seq 0 (length sorted))).
Proof. unfold nonMaxSuppression. by destruct (foldl _ _ _). Qed.

(** C10: the call leaves the caller's array sorted by descending
    confidence: the array after the call is the stable sort of the array
    before, a rearrangement of it in which every element has a confidence
    at least that of every later one. *)
Theorem nonMaxSuppression_sorts_in_place boxes iouThreshold :
  Forall no_nan boxes ->
  let after := fst (nonMaxSuppression boxes iouThreshold) in
  after = array_sort byConfidence boxes
  /\ after ≡ₚ boxes
  /\ StronglySorted desc after.
Proof.
  intros Hn after. unfold after. rewrite nonMaxSuppression_fst.
  split; [done|]. split; [apply array_sort_perm|by apply array_sort_sorted].
Qed.

Lemma nonMaxSuppression_sorts_in_place_witness :
  let after := fst (nonMaxSuppression unsorted_pair (Fin (45 # 100))) in
  after = array_sort byConfidence unsorted_pair
  /\ after ≡ₚ unsorted_pair
  /\ StronglySorted desc after.
Proof.
  apply (nonMaxSuppression_sorts_in_place unsorted_pair (Fin (45 # 100))).
  by repeat constructor.
Defined.

(** The array that was passed is not the array that is left. *)
Example nonMaxSuppression_reorders :
  fst (nonMaxSuppression unsorted_pair (Fin (45 # 100))) = reverse unsorted_pair
  /\ fst (nonMaxSuppression unsorted_pair (Fin (45 # 100))) <> unsorted_pair.
Proof. by vm_compute. Qed.

(** *** The two loops *)

Lemma foldl_preserves {S B} (Q : S -> Prop) (f : S -> B -> S) (l : list B) (s : S) :
  (forall x s, x ∈ l -> Q s -> Q (f s x)) -> Q s -> Q (foldl f s l).
Proof.
  revert s. induction l as [|x l IH]; intros s Hf Hs; [done|]. simpl.
  apply IH.
  - intros y s' Hy. apply Hf. by right.
  - apply Hf; [by left|done].
Qed.

Lemma foldl_seq_invariant {S} (P : nat -> S -> Prop) (f : S -> nat -> S)
    (start len : nat) (s : S) :
  P start s ->
  (forall i s, (start <= i < start + len)%nat -> P i s -> P (Datatypes.S i) (f s i)) ->
  P (start + len)%nat (foldl f s (seq start len)).
Proof.
  revert start s. induction len as [|len IH]; intros start s H0 Hstep.
  - by rewrite Nat.add_0_r.
  - simpl. rewrite <- Nat.add_succ_comm. apply IH.
    + apply Hstep; [lia|done].
    + intros i s' Hi. apply Hstep. lia.
Qed.


Section Loops.
Variables (boxes : list DetectionResult) (iouThreshold : number).









Lemma select_step_inv i st :
  (i < length boxes)%nat -> select_inv boxes i st ->
  select_inv boxes (S i) (select_step boxes iouThreshold st i).
Proof.
  intros Hi. destruct st as [kept isSelected]. unfold select_inv. simpl.
  intros Hsub.
  destruct (lookup_lt_is_Some_2 boxes i Hi) as [bi Hbi].
  rewrite (take_S_r _ _ _ Hbi).
  unfold select_step. destruct (flag isSelected i).
  - by apply sublist_inserts_r.
  - rewrite Hbi. simpl. by apply sublist_app.
Qed.

Lemma select_loop_sublist :
  fst (foldl (select_step boxes iouThreshold)
             ([], replicate (length boxes) false) (seq 0 (length boxes)))
  `sublist_of` boxes.
Proof.
  assert (H : select_inv boxes (length boxes)
    (foldl (select_step boxes iouThreshold)
           ([], replicate (length boxes) false) (seq 0 (length boxes)))).
  { apply (foldl_seq_invariant (select_inv boxes) _ 0 (length boxes)).
    - apply sublist_nil_l.
    - intros i st Hi. apply select_step_inv. lia. }
  unfold select_inv in H. by rewrite firstn_all in H.
Qed.
End Loops.

(** When no two boxes share a label, no flag is raised ahead of the outer
    loop, which then keeps every box. *)
Section DistinctLabels.
Variables (boxes : list DetectionResult) (iouThreshold : number).
Hypothesis labels_distinct : NoDup (label <$> boxes).



End DistinctLabels.

(** What [nonMaxSuppression] returns is a subsequence of the sorted
    array. *)
Lemma nonMaxSuppression_sublist boxes iouThreshold :
  snd (nonMaxSuppression boxes iouThreshold)
  `sublist_of` array_sort byConfidence boxes.
Proof. rewrite nonMaxSuppression_snd. apply select_loop_sublist. Qed.

Lemma nonMaxSuppression_elem_of boxes iouThreshold d :
  d ∈ snd (nonMaxSuppression boxes iouThreshold) -> d ∈ boxes.
Proof.
  intros Hd. rewrite <- (array_sort_perm byConfidence boxes).
  eapply elem_of_sublist; [done|apply nonMaxSuppression_sublist].
Qed.





(** Two overlapping boxes of one label, of IoU [0.6]: the one of lower
    confidence is dropped; two boxes of distinct labels are both kept. *)
Example nonMaxSuppression_scenarios :
  snd (nonMaxSuppression same_label_pair (Fin (45 # 100))) = drop 1 same_label_pair
  /\ snd (nonMaxSuppression unsorted_pair (Fin (45 # 100))) = reverse unsorted_pair.
Proof. by vm_compute. Qed.


Lemma nonMaxSuppression_singleton d iouThreshold :
  snd (nonMaxSuppression [d] iouThreshold) = [d].
Proof. reflexivity. Qed.


(** ** Decoding *)

Lemma modelWidth_eq : modelWidth = Fin 640.
Proof. reflexivity. Qed.

Lemma modelHeight_eq : modelHeight = Fin 640.
Proof. reflexivity. Qed.

(** The loop over the rows collects what the rows decode to, in the order
    of the rows. *)
Lemma push_rows_omap colors predictions dimensions imgWidth imgHeight thr acc l :
  foldl (push_row colors predictions dimensions imgWidth imgHeight thr) acc l
  = acc ++ omap (decode_row colors predictions dimensions imgWidth imgHeight thr) l.
Proof.
  revert acc. induction l as [|i l IH]; intros acc; simpl.
  - by rewrite app_nil_r.
  - rewrite IH. unfold push_row.
    destruct (decode_row _ _ _ _ _ _ i); [|done]. by rewrite <- app_assoc.
Qed.

Lemma elem_of_decode_rows colors out0 rest imgWidth imgHeight thr d :
  d ∈ decode_rows colors (out0 :: rest) imgWidth imgHeight thr ->
  exists dimensions i,
    dims out0 !! 2%nat = Some dimensions
    /\ decode_row colors (data out0) dimensions imgWidth imgHeight thr i = Some d.
Proof.
  unfold decode_rows. destruct (dims out0 !! 2%nat) as [dimensions|]; [|by inversion 1].
  rewrite push_rows_omap, app_nil_l. intros (i & _ & Hi)%list_elem_of_omap.
  by exists dimensions, i.
Qed.

Lemma decode_row_confidence colors predictions dimensions imgWidth imgHeight thr i d :
  decode_row colors predictions dimensions imgWidth imgHeight thr i = Some d ->
  (confidence d >? thr)%num = true.
Proof.
  unfold decode_row. intros H.
  destruct (_ >? thr)%num; [|done].
  destruct (scan_classes _ _ _) as [maxClassScore maxClassIndex].
  destruct (_ >? thr)%num eqn:E; [|done]. by simplify_eq.
Qed.


Lemma postprocess_nonMaxSuppression colors output imgWidth imgHeight thr :
  postprocess colors output imgWidth imgHeight thr
  = snd (nonMaxSuppression (decode_rows colors output imgWidth imgHeight thr)
                           (iouThreshold modelConfig)).
Proof. by destruct output. Qed.

Lemma two_rows_candidates :
  decode_rows sample_colors two_rows (of_nat 640) (of_nat 480) (Fin (45 # 100))
  = [candidate_low; candidate_high].
Proof. by vm_compute. Qed.

Lemma two_rows_postprocess :
  postprocess sample_colors two_rows (of_nat 640) (of_nat 480) (Fin (45 # 100)) = [candidate_high].
Proof. by vm_compute. Qed.



(** *** The scan for the best class *)

Lemma scan_below predictions baseOffset start len st bound :
  (fst st <? bound)%num = true ->
  (forall j, (start <= j < start + len)%nat ->
             (get predictions (baseOffset + j) <? bound)%num = true) ->
  (fst (foldl (scan_step predictions baseOffset) st (seq start len)) <? bound)%num = true.
Proof.
  intros Hst Hbelow.
  apply (foldl_preserves (fun st => (fst st <? bound)%num = true)); [|done].
  intros j st' Hj Hst'. apply elem_of_seq in Hj. unfold scan_step.
  destruct (_ >? _)%num; [|done]. simpl. apply Hbelow. lia.
Qed.

Lemma scan_fixed predictions baseOffset start len st :
  (forall j, (start <= j < start + len)%nat ->
             (get predictions (baseOffset + j) >? fst st)%num = false) ->
  foldl (scan_step predictions baseOffset) st (seq start len) = st.
Proof.
  intros Hnot.
  apply (foldl_preserves (fun st' => st' = st)); [|done].
  intros j st' Hj ->. apply elem_of_seq in Hj. unfold scan_step.
  by rewrite Hnot by lia.
Qed.

Lemma get_app_r (l1 l2 : list number) (j : nat) :
  get (l1 ++ l2) (length l1 + j) = get l2 j.
Proof. unfold get. rewrite lookup_app_r by lia. do 2 f_equal. lia. Qed.

Lemma get_app_l (l1 l2 : list number) (j : nat) :
  (j < length l1)%nat -> get (l1 ++ l2) j = get l1 j.
Proof. intros Hj. unfold get. by rewrite lookup_app_l. Qed.

Lemma get_middle (l1 l2 : list number) (s : number) :
  get (l1 ++ [s] ++ l2) (length l1) = s.
Proof.
  unfold get. change (l1 ++ [s] ++ l2) with (l1 ++ s :: l2).
  by rewrite list_lookup_middle.
Qed.

Lemma get_Forall (P : number -> Prop) (l : list number) (j : nat) :
  Forall P l -> (j < length l)%nat -> P (get l j).
Proof.
  intros Hl Hj. destruct (lookup_lt_is_Some_2 l j Hj) as [s Hs].
  unfold get. rewrite Hs. simpl. by eapply Forall_lookup_1.
Qed.

(** A row with one class score [best], above [0] and above every other
    class score: the scan ends on that score and on its index. *)
Lemma scan_classes_single (header before after : list number) (best : number) :
  length header = 5%nat ->
  (zero <? best)%num = true ->
  Forall (fun s => (s <? best)%num = true) before ->
  Forall (fun s => (s <? best)%num = true) after ->
  let row := header ++ before ++ [best] ++ after in
  scan_classes row 0 (length row) = (best, length before).
Proof.
  intros Hh Hpos Hb Ha row. unfold scan_classes.
  assert (Hlen : (length row - 5 = length before + S (length after))%nat).
  { unfold row. rewrite !length_app, Hh. simpl. lia. }
  rewrite Hlen, seq_app, foldl_app. cbn [seq foldl].
  assert (Hscore : forall j, get row (0 + (5 + j)) = get (before ++ [best] ++ after) j).
  { intros j. unfold row. rewrite <- Hh. apply get_app_r. }
  set (st1 := foldl (scan_step row 0) (zero, 0%nat) (seq 5 (length before))).
  assert (H1 : (fst st1 <? best)%num = true).
  { apply scan_below; [done|]. intros j Hj.
    replace j with (5 + (j - 5))%nat by lia. rewrite Hscore.
    rewrite get_app_l by lia.
    apply (get_Forall (fun s => (s <? best)%num = true)); [done|lia]. }
  assert (H2 : scan_step row 0 st1 (5 + length before) = (best, length before)).
  { unfold scan_step. rewrite Hscore, get_middle.
    unfold gtb. rewrite H1. f_equal. lia. }
  rewrite H2. apply scan_fixed. intros j Hj. cbn [fst].
  replace j with (5 + (length before + S (j - 5 - length before - 1)))%nat by lia.
  rewrite Hscore, get_app_r.
  change ([best] ++ after) with (best :: after).
  change (get (best :: after) (S ?k)) with (get after k).
  unfold gtb. apply ltb_asym.
  apply (get_Forall (fun s => (s <? best)%num = true)); [done|lia].
Qed.

(** C7: one row of objectness [0.9] whose class scores are all below
    [0.9] but one, equal to [0.9]: at the threshold [0.45], [postprocess]
    returns exactly one detection, of confidence [0.81], labelled with the
    class name at the index of that score. *)
Theorem postprocess_single_row colors (x y w h : number) (before after : list number)
    (imgWidth imgHeight : number) :
  Forall (fun s => (s <? Fin (9 # 10))%num = true) before ->
  Forall (fun s => (s <? Fin (9 # 10))%num = true) after ->
  let row := [x; y; w; h; Fin (9 # 10)] ++ before ++ [Fin (9 # 10)] ++ after in
  let output := [mkTensor row [1; 1; length row]%nat] in
  exists d,
    postprocess colors output imgWidth imgHeight (Fin (45 # 100)) = [d]
    /\ confidence d = Fin (81 # 100)
    /\ label d = classNames modelConfig !! length before.
Proof.
  intros Hb Ha row output.
  rewrite postprocess_nonMaxSuppression.
  change (decode_rows colors output imgWidth imgHeight (Fin (45 # 100)))
    with (push_row colors row (length row) imgWidth imgHeight (Fin (45 # 100)) [] 0).
  unfold push_row, decode_row.
  change (0 * length row)%nat with 0%nat. change (0 + 4)%nat with 4%nat.
  change (get row 4) with (Fin (9 # 10)).
  change (Fin (9 # 10) >? Fin (45 # 100))%num with true. cbv iota.
  pose proof (scan_classes_single [x; y; w; h; Fin (9 # 10)] before after (Fin (9 # 10))
                eq_refl eq_refl Hb Ha) as Hscan.
  cbv zeta in Hscan. fold row in Hscan. rewrite Hscan.
  change (Fin (9 # 10) * Fin (9 # 10) >? Fin (45 # 100))%num with true. cbv iota.
  rewrite app_nil_l, nonMaxSuppression_singleton.
  eexists. split; [reflexivity|]. by split.
Qed.

Lemma postprocess_single_row_witness :
  exists d,
    postprocess ["#FF0000"; "#00FF00"; "#0000FF"; "#FFFF00"]
      [mkTensor [Fin (1 # 2); Fin (1 # 2); Fin (1 # 4); Fin (1 # 4); Fin (9 # 10);
                 Fin 0; Fin (1 # 10); Fin (9 # 10); Fin (3 # 10)]
                [1; 1; 9]%nat]
      (of_nat 1280) (of_nat 720) (Fin (45 # 100)) = [d]
    /\ confidence d = Fin (81 # 100)
    /\ label d = Some "car".
Proof.
  apply (postprocess_single_row _ (Fin (1 # 2)) (Fin (1 # 2)) (Fin (1 # 4)) (Fin (1 # 4))
           [Fin 0; Fin (1 # 10)] [Fin (3 # 10)]).
  - by repeat constructor.
  - by repeat constructor.
Defined.

(** *** The rescaling of the box *)

(** In exact arithmetic, multiplying by the model dimension and by the
    ratio of the image dimension to the model dimension is multiplying by
    the image dimension. *)
Lemma rescale_exact (r m i : Q) :
  ~ m == 0 -> (Fin r * Fin m * (Fin i / Fin m))%num = fin (r * i).
Proof.
  intros Hm. rewrite div_fin by done.
  repeat (progress (unfold fin; cbn [Num.mul])).
  f_equal. apply Qred_complete. rewrite !Qred_correct. by field.
Qed.

Lemma decode_row_box colors predictions dimensions imgWidth imgHeight thr i d :
  decode_row colors predictions dimensions imgWidth imgHeight thr i = Some d ->
  let raw k := get predictions (i * dimensions + k) in
  let x := (raw 0%nat * modelWidth * (imgWidth / modelWidth))%num in
  let y := (raw 1%nat * modelHeight * (imgHeight / modelHeight))%num in
  let width := (raw 2%nat * modelWidth * (imgWidth / modelWidth))%num in
  let height := (raw 3%nat * modelHeight * (imgHeight / modelHeight))%num in
  box d = mkBox (x - width / Fin 2)%num (y - height / Fin 2)%num width height.
Proof.
  unfold decode_row. intros H.
  destruct (_ >? thr)%num; [|done].
  destruct (scan_classes _ _ _) as [maxClassScore maxClassIndex].
  destruct (_ >? thr)%num; [|done].
  simplify_eq. cbn [box]. by rewrite Nat.add_0_r.
Qed.

(** C1 (amended): the candidates of [postprocess] are what the rows below
    the row count decode to, in the order of the rows, and [postprocess]
    returns candidates only.  For every row [i] that decodes to a
    detection, the four box values of the row [i] are each multiplied by
    the model dimension and then by the ratio of the image dimension to
    the model dimension of the axis; the box stores the centre moved by
    half the size.  For finite values this is the raw value times the
    image dimension: the raw values are taken as fractions of the model
    input, not as model-input pixels. *)
Theorem postprocess_rescale colors out0 rest (imgWidth imgHeight thr : number) dimensions :
  dims out0 !! 2%nat = Some dimensions ->
  let numDetections := default 0%nat (dims out0 !! 1%nat) in
  let row := decode_row colors (data out0) dimensions imgWidth imgHeight thr in
  decode_rows colors (out0 :: rest) imgWidth imgHeight thr = omap row (seq 0 numDetections)
  /\ (forall d, d ∈ postprocess colors (out0 :: rest) imgWidth imgHeight thr ->
                exists i, (i < numDetections)%nat /\ row i = Some d)
  /\ (forall i d, row i = Some d ->
        let raw k := get (data out0) (i * dimensions + k) in
        let x := (raw 0%nat * modelWidth * (imgWidth / modelWidth))%num in
        let y := (raw 1%nat * modelHeight * (imgHeight / modelHeight))%num in
        let width := (raw 2%nat * modelWidth * (imgWidth / modelWidth))%num in
        let height := (raw 3%nat * modelHeight * (imgHeight / modelHeight))%num in
        box d = mkBox (x - width / Fin 2)%num (y - height / Fin 2)%num width height
        /\ (forall rx ry rw rh iw ih : Q,
              raw 0%nat = Fin rx -> raw 1%nat = Fin ry ->
              raw 2%nat = Fin rw -> raw 3%nat = Fin rh ->
              imgWidth = Fin iw -> imgHeight = Fin ih ->
              x = fin (rx * iw) /\ y = fin (ry * ih)
              /\ width = fin (rw * iw) /\ height = fin (rh * ih))).
Proof.
  intros Hdim numDetections row. split; [|split].
  - unfold decode_rows. rewrite Hdim. cbv zeta. by rewrite push_rows_omap.
  - intros d Hd. rewrite postprocess_nonMaxSuppression in Hd.
    apply nonMaxSuppression_elem_of in Hd. revert Hd.
    unfold decode_rows. rewrite Hdim. cbv zeta. rewrite push_rows_omap, app_nil_l.
    intros (i & Hi & Hrow)%list_elem_of_omap. apply elem_of_seq in Hi.
    exists i. split; [unfold numDetections; lia|done].
  - intros i d Hrow. cbv zeta. split.
    + by apply (decode_row_box colors _ _ _ _ thr).
    + intros rx ry rw rh iw ih -> -> -> -> -> ->.
      rewrite modelWidth_eq, modelHeight_eq.
      by rewrite !rescale_exact.
Qed.


Lemma one_row_postprocess :
  postprocess sample_colors one_row (of_nat 1280) (of_nat 720) (Fin (45 # 100)) = [one_row_detection].
Proof. by vm_compute. Qed.

(** C1 (counterexample): the row of [one_row] has a raw centre of [1/2]
    and a raw width of [1/4]; for a frame 1280 wide the decoded width is
    [320] and the decoded centre [640], where the raw values times
    [imgWidth / modelWidth] are [1/2] and [1]. *)
Lemma postprocess_not_ratio_scaled :
  let imgWidth := of_nat 1280 in
  postprocess sample_colors one_row imgWidth (of_nat 720) (Fin (45 # 100)) = [one_row_detection]
  /\ box_width (box one_row_detection) = Fin 320
  /\ (Fin (1 # 4) * imgWidth / modelWidth)%num = Fin (1 # 2)
  /\ (box_x (box one_row_detection) + box_width (box one_row_detection) / Fin 2)%num
     = Fin 640
  /\ (Fin (1 # 2) * imgWidth / modelWidth)%num = Fin 1
  /\ box_width (box one_row_detection) <> (Fin (1 # 4) * imgWidth / modelWidth)%num.
Proof. cbv zeta. rewrite one_row_postprocess. by vm_compute. Qed.

Lemma postprocess_rescale_witness :
  let numDetections := default 0%nat (dims one_row_tensor !! 1%nat) in
  let row :=
    decode_row sample_colors (data one_row_tensor) 85 (of_nat 1280) (of_nat 720)
      (Fin (45 # 100)) in
  decode_rows sample_colors [one_row_tensor] (of_nat 1280) (of_nat 720) (Fin (45 # 100))
  = omap row (seq 0 numDetections)
  /\ (forall d,
        d ∈ postprocess sample_colors [one_row_tensor] (of_nat 1280) (of_nat 720)
              (Fin (45 # 100)) ->
        exists i, (i < numDetections)%nat /\ row i = Some d)
  /\ (forall i d, row i = Some d ->
        let raw k := get (data one_row_tensor) (i * 85 + k) in
        let x := (raw 0%nat * modelWidth * (of_nat 1280 / modelWidth))%num in
        let y := (raw 1%nat * modelHeight * (of_nat 720 / modelHeight))%num in
        let width := (raw 2%nat * modelWidth * (of_nat 1280 / modelWidth))%num in
        let height := (raw 3%nat * modelHeight * (of_nat 720 / modelHeight))%num in
        box d = mkBox (x - width / Fin 2)%num (y - height / Fin 2)%num width height
        /\ (forall rx ry rw rh iw ih : Q,
              raw 0%nat = Fin rx -> raw 1%nat = Fin ry ->
              raw 2%nat = Fin rw -> raw 3%nat = Fin rh ->
              of_nat 1280 = Fin iw -> of_nat 720 = Fin ih ->
              x = fin (rx * iw) /\ y = fin (ry * ih)
              /\ width = fin (rw * iw) /\ height = fin (rh * ih))).
Proof.
  apply (postprocess_rescale sample_colors one_row_tensor [] (of_nat 1280) (of_nat 720)
           (Fin (45 # 100)) 85).
  reflexivity.
Defined.

(** ** The tick of the hook *)

(** C4 (counterexample): the consumer has no IoU threshold to set, and
    wanting [0.9] changes nothing: for the two rows of [two_rows], of IoU
    [0.6], the tick publishes one detection, where suppression at [0.9]
    keeps the two candidates. *)
Lemma tick_not_at_consumer_iouThreshold :
  let consumer_iou := Fin (9 # 10) in
  let svc := loaded_service (constant_session two_rows) in
  let candidates :=
    decode_rows (colors svc) two_rows (of_nat 640) (of_nat 480) (Fin (45 # 100)) in
  UseObjectDetection.tick no_model default_props (Some black_frame) (svc, [])
  = (svc, [candidate_high])
  /\ snd (nonMaxSuppression candidates consumer_iou) = [candidate_high; candidate_low]
  /\ snd (UseObjectDetection.tick no_model default_props (Some black_frame) (svc, []))
     <> snd (nonMaxSuppression candidates consumer_iou).
Proof.
  intros consumer_iou svc candidates.
  assert (Htick : UseObjectDetection.tick no_model default_props (Some black_frame) (svc, [])
                  = (svc, [candidate_high])).
  { unfold UseObjectDetection.tick.
    rewrite (detect_loaded no_model svc black_frame _ (constant_session two_rows) two_rows)
      by reflexivity.
    change (colors svc) with sample_colors.
    change (of_nat (img_width black_frame)) with (of_nat 640).
    change (of_nat (img_height black_frame)) with (of_nat 480).
    change (threshold_or_default _) with (Fin (45 # 100)).
    by rewrite two_rows_postprocess. }
  assert (Hnms : snd (nonMaxSuppression candidates consumer_iou)
                 = [candidate_high; candidate_low]).
  { unfold candidates. change (colors svc) with sample_colors.
    rewrite two_rows_candidates. by vm_compute. }
  split; [done|]. split; [done|]. by rewrite Htick, Hnms.
Qed.

(** C4 (amended): the IoU threshold of the suppression is the constant
    [0.45] of the configuration.  When the model is loaded and the engine
    answers, the tick publishes the suppression at [0.45] of the candidates
    decoded at the consumer's confidence threshold; and of the consumer's
    parameters only the confidence threshold bears on what is published. *)
Theorem tick_iouThreshold_fixed env props imageData svc detections s output :
  modelLoaded svc = true ->
  session svc = Some s ->
  run s (letterbox 1 3 640 640 imageData) = Resolved output ->
  let thr :=
    threshold_or_default
      (Some (default (Fin (45 # 100)) (UseObjectDetection.confidenceThreshold props))) in
  let candidates :=
    decode_rows (colors svc) output
      (of_nat (img_width imageData)) (of_nat (img_height imageData)) thr in
  UseObjectDetection.tick env props (Some imageData) (svc, detections)
  = (svc, snd (nonMaxSuppression candidates (Fin (45 # 100))))
  /\ forall props',
       UseObjectDetection.confidenceThreshold props'
       = UseObjectDetection.confidenceThreshold props ->
       UseObjectDetection.tick env props' (Some imageData) (svc, detections)
       = UseObjectDetection.tick env props (Some imageData) (svc, detections).
Proof.
  intros Hloaded Hs Hrun thr candidates. split.
  - unfold UseObjectDetection.tick.
    rewrite (detect_loaded env svc imageData _ s output) by done.
    by rewrite postprocess_nonMaxSuppression.
  - intros props' Hsame. unfold UseObjectDetection.tick. by rewrite Hsame.
Qed.

Lemma tick_iouThreshold_fixed_witness :
  let svc := loaded_service (constant_session two_rows) in
  let thr :=
    threshold_or_default
      (Some (default (Fin (45 # 100)) (UseObjectDetection.confidenceThreshold default_props))) in
  let candidates :=
    decode_rows (colors svc) two_rows
      (of_nat (img_width black_frame)) (of_nat (img_height black_frame)) thr in
  UseObjectDetection.tick no_model default_props (Some black_frame) (svc, [])
  = (svc, snd (nonMaxSuppression candidates (Fin (45 # 100))))
  /\ forall props',
       UseObjectDetection.confidenceThreshold props'
       = UseObjectDetection.confidenceThreshold default_props ->
       UseObjectDetection.tick no_model props' (Some black_frame) (svc, [])
       = UseObjectDetection.tick no_model default_props (Some black_frame) (svc, []).
Proof.
  apply (tick_iouThreshold_fixed no_model default_props black_frame
           (loaded_service (constant_session two_rows)) []
           (constant_session two_rows) two_rows); reflexivity.
Defined.

(** * Further properties *)

(** ** Order and extrema of numbers *)

Lemma ltb_trans (a b c : number) :
  (a <? b)%num = true -> (b <? c)%num = true -> (a <? c)%num = true.
Proof.
  destruct a as [| | |p], b as [| | |q], c as [| | |r]; try done.
  rewrite !ltb_fin. apply Qlt_trans.
Qed.

Lemma ltb_leb_trans (a b c : number) :
  (a <? b)%num = true -> Num.leb b c = true -> (a <? c)%num = true.
Proof.
  destruct a as [| | |p], b as [| | |q], c as [| | |r]; try done.
  rewrite !ltb_fin, leb_fin. apply Qlt_le_trans.
Qed.

Lemma min_fin_spec (p q : Q) :
  exists r, Num.min (Fin p) (Fin q) = Fin r
            /\ r <= p /\ r <= q /\ (r == p \/ r == q).
Proof.
  unfold Num.min. destruct (Fin q <? Fin p)%num eqn:E.
  - apply ltb_fin in E. exists q. repeat split; [lra|lra|by right].
  - apply ltb_fin_false in E. exists p. repeat split; [lra|lra|by left].
Qed.

Lemma max_fin_spec (p q : Q) :
  exists r, Num.max (Fin p) (Fin q) = Fin r
            /\ p <= r /\ q <= r /\ (r == p \/ r == q).
Proof.
  unfold Num.max. destruct (Fin p <? Fin q)%num eqn:E.
  - apply ltb_fin in E. exists q. repeat split; [lra|lra|by right].
  - apply ltb_fin_false in E. exists p. repeat split; [lra|lra|by left].
Qed.

Lemma ltb_fin_equiv (p p' q q' : Q) :
  p == p' -> q == q' -> (Fin p <? Fin q)%num = (Fin p' <? Fin q')%num.
Proof. intros Hp Hq. simpl. by rewrite Hp, Hq. Qed.

Lemma div_fin_equiv (p p' q q' : Q) :
  p == p' -> q == q' -> (Fin p / Fin q)%num = (Fin p' / Fin q')%num.
Proof.
  intros Hp Hq. unfold Num.div.
  rewrite (Qeqb_comp q q' Hq 0 0 (Qeq_refl 0)).
  rewrite (Qcompare_comp p p' Hp 0 0 (Qeq_refl 0)).
  destruct (Qeq_bool q' 0); [done|]. apply fin_eq. by rewrite Hp, Hq.
Qed.

(** ** Intersection over union of finite boxes *)

(** The value of [calculateIoU] on two boxes of finite entries, from the
    edges of the intersection. *)
Lemma calculateIoU_fin (x1 y1 w1 h1 x2 y2 w2 h2 : Q) :
  exists il it ir ib : Q,
    (x1 <= il /\ x2 <= il /\ (il == x1 \/ il == x2))
    /\ (y1 <= it /\ y2 <= it /\ (it == y1 \/ it == y2))
    /\ (ir <= x1 + w1 /\ ir <= x2 + w2 /\ (ir == x1 + w1 \/ ir == x2 + w2))
    /\ (ib <= y1 + h1 /\ ib <= y2 + h2 /\ (ib == y1 + h1 \/ ib == y2 + h2))
    /\ calculateIoU (mkBox (Fin x1) (Fin y1) (Fin w1) (Fin h1))
                    (mkBox (Fin x2) (Fin y2) (Fin w2) (Fin h2))
       = if (Fin ir <? Fin il)%num || (Fin ib <? Fin it)%num then zero
         else (Fin ((ir - il) * (ib - it))
               / fin (w1 * h1 + w2 * h2 - (ir - il) * (ib - it)))%num.
Proof.
  unfold calculateIoU. cbn [Num.add]. unfold fin.
  destruct (max_fin_spec x1 x2) as (il & -> & Hil).
  destruct (max_fin_spec y1 y2) as (it & -> & Hit).
  destruct (min_fin_spec (Qred (x1 + w1)) (Qred (x2 + w2))) as (ir & -> & Hir).
  destruct (min_fin_spec (Qred (y1 + h1)) (Qred (y2 + h2))) as (ib & -> & Hib).
  rewrite !Qred_correct in Hir, Hib.
  exists il, it, ir, ib. repeat (split; [done|]).
  destruct (_ || _); [done|].
  repeat (progress (unfold fin; cbn [Num.sub Num.mul Num.add])).
  apply div_fin_equiv; by rewrite !Qred_correct.
Qed.

(** X1: on boxes of finite entries, [calculateIoU] does not depend on the
    order of its two arguments. *)
Theorem calculateIoU_symmetric (x1 y1 w1 h1 x2 y2 w2 h2 : Q) :
  calculateIoU (mkBox (Fin x1) (Fin y1) (Fin w1) (Fin h1))
               (mkBox (Fin x2) (Fin y2) (Fin w2) (Fin h2))
  = calculateIoU (mkBox (Fin x2) (Fin y2) (Fin w2) (Fin h2))
                 (mkBox (Fin x1) (Fin y1) (Fin w1) (Fin h1)).
Proof.
  destruct (calculateIoU_fin x1 y1 w1 h1 x2 y2 w2 h2)
    as (il & it & ir & ib & Hil & Hit & Hir & Hib & ->).
  destruct (calculateIoU_fin x2 y2 w2 h2 x1 y1 w1 h1)
    as (il' & it' & ir' & ib' & Hil' & Hit' & Hir' & Hib' & ->).
  assert (El : il == il') by (destruct Hil as (? & ? & [?|?]), Hil' as (? & ? & [?|?]); lra).
  assert (Et : it == it') by (destruct Hit as (? & ? & [?|?]), Hit' as (? & ? & [?|?]); lra).
  assert (Er : ir == ir') by (destruct Hir as (? & ? & [?|?]), Hir' as (? & ? & [?|?]); lra).
  assert (Eb : ib == ib') by (destruct Hib as (? & ? & [?|?]), Hib' as (? & ? & [?|?]); lra).
  rewrite (ltb_fin_equiv ir ir' il il' Er El), (ltb_fin_equiv ib ib' it it' Eb Et).
  destruct (_ || _); [done|]. unfold fin.
  apply div_fin_equiv; rewrite ?Qred_correct, El, Et, Er, Eb; ring.
Qed.



(** In exact arithmetic the IoU of two boxes of positive width and height
    is between [0] and [1]. *)
Lemma calculateIoU_exact_range (x1 y1 w1 h1 x2 y2 w2 h2 : Q) :
  0 < w1 -> 0 < h1 -> 0 < w2 -> 0 < h2 ->
  exists q, calculateIoU (mkBox (Fin x1) (Fin y1) (Fin w1) (Fin h1))
                         (mkBox (Fin x2) (Fin y2) (Fin w2) (Fin h2)) = Fin q
            /\ 0 <= q <= 1.
Proof.
  intros Hw1 Hh1 Hw2 Hh2.
  destruct (calculateIoU_fin x1 y1 w1 h1 x2 y2 w2 h2)
    as (il & it & ir & ib & Hil & Hit & Hir & Hib & ->).
  destruct (Fin ir <? Fin il)%num eqn:Gx; [exists 0; split; [done|lra]|].
  destruct (Fin ib <? Fin it)%num eqn:Gy; [exists 0; split; [done|lra]|]. cbn [orb].
  apply ltb_fin_false in Gx, Gy.
  destruct Hil as (? & ? & _), Hit as (? & ? & _), Hir as (? & ? & _), Hib as (? & ? & _).
  set (a := ir - il). set (b := ib - it).
  assert (Ha : 0 <= a <= w1) by (unfold a; lra).
  assert (Hb : 0 <= b <= h1) by (unfold b; lra).
  assert (Ha2 : a <= w2) by (unfold a; lra).
  assert (Hb2 : b <= h2) by (unfold b; lra).
  assert (Hab : 0 <= a * b) by nra.
  assert (Hab1 : a * b <= w1 * h1) by nra.
  assert (Hw2h2 : 0 < w2 * h2) by nra.
  set (u := w1 * h1 + w2 * h2 - a * b).
  assert (Hu : 0 < u) by (unfold u; lra).
  assert (Hau : a * b <= u) by (unfold u; nra).
  unfold fin. rewrite div_fin by (rewrite Qred_correct; lra).
  exists (Qred (a * b / Qred u)). split; [done|].
  rewrite !Qred_correct. split.
  - apply Qle_shift_div_l; [done|]. lra.
  - apply Qle_shift_div_r; [done|]. lra.
Qed.

(** X3: in binary64, on two boxes of positive width and height whose
    eight values are multiples of one power of two [2 ^ s],
    [-537 <= s <= 485], with integer multipliers below [2 ^ 26] in
    magnitude, [calculateIoU] returns the
    exact intersection over union rounded once, a finite number between
    [0] and [1]. *)
Theorem calculateIoU_range (s x1 y1 w1 h1 x2 y2 w2 h2 : Z) :
  (-537 <= s <= 485)%Z ->
  (Z.abs x1 < 2 ^ 26)%Z -> (Z.abs y1 < 2 ^ 26)%Z ->
  (0 < w1 < 2 ^ 26)%Z -> (0 < h1 < 2 ^ 26)%Z ->
  (Z.abs x2 < 2 ^ 26)%Z -> (Z.abs y2 < 2 ^ 26)%Z ->
  (0 < w2 < 2 ^ 26)%Z -> (0 < h2 < 2 ^ 26)%Z ->
  let box1 := grid_box s x1 y1 w1 h1 in
  let box2 := grid_box s x2 y2 w2 h2 in
  Binary64.calculateIoU box1 box2 = Binary64.rounded (calculateIoU box1 box2)
  /\ exists q, Binary64.calculateIoU box1 box2 = Fin q /\ 0 <= q <= 1.
Proof.
  intros Hs Hx1 Hy1 Hw1 Hh1 Hx2 Hy2 Hw2 Hh2 box1 box2. unfold box1, box2.
  rewrite calculateIoU_on_grid by lia. split; [done|].
  unfold grid_box.
  destruct (grid_finite s x1) as (qx1 & ->), (grid_finite s y1) as (qy1 & ->).
  destruct (grid_finite s x2) as (qx2 & ->), (grid_finite s y2) as (qy2 & ->).
  destruct (grid_positive s w1) as (qw1 & -> & Hqw1); [lia|].
  destruct (grid_positive s h1) as (qh1 & -> & Hqh1); [lia|].
  destruct (grid_positive s w2) as (qw2 & -> & Hqw2); [lia|].
  destruct (grid_positive s h2) as (qh2 & -> & Hqh2); [lia|].
  destruct (calculateIoU_exact_range qx1 qy1 qw1 qh1 qx2 qy2 qw2 qh2)
    as (q & -> & Hq); [done..|].
  by apply round_unit.
Qed.

Lemma calculateIoU_range_witness :
  let box1 := grid_box (-1) 0 0 21 20 in
  let box2 := grid_box (-1) 11 9 20 21 in
  Binary64.calculateIoU box1 box2 = Binary64.rounded (calculateIoU box1 box2)
  /\ exists q, Binary64.calculateIoU box1 box2 = Fin q /\ 0 <= q <= 1.
Proof. apply calculateIoU_range; lia. Defined.

(** ** What suppression keeps *)

Section Apart.
Variables (boxes : list DetectionResult) (iouThreshold : number).





(** The boxes pushed so far stay where they are. *)
Lemma select_step_prefix l kept isSelected :
  exists more,
    fst (foldl (select_step boxes iouThreshold) (kept, isSelected) l) = kept ++ more.
Proof.
  revert kept isSelected. induction l as [|i l IH]; intros kept isSelected.
  - exists []. by rewrite app_nil_r.
  - cbn [foldl]. unfold select_step at 2.
    destruct (flag isSelected i); [apply IH|].
    destruct (boxes !! i) as [bi|]; [|apply IH].
    destruct (IH (kept ++ [bi])
                 (foldl (suppress_step boxes iouThreshold i) (<[i:=true]> isSelected)
                        (seq (S i) (length boxes - S i)))) as [more Hmore].
    exists (bi :: more). rewrite Hmore. by rewrite <- app_assoc.
Qed.
End Apart.



(** X5: suppression only removes: what [nonMaxSuppression] returns is a
    subsequence of the sorted array, so it is no longer than the input and
    holds input boxes only. *)
Theorem nonMaxSuppression_subsequence boxes iouThreshold :
  let result := snd (nonMaxSuppression boxes iouThreshold) in
  result `sublist_of` fst (nonMaxSuppression boxes iouThreshold)
  /\ (length result <= length boxes)%nat
  /\ forall d, d ∈ result -> d ∈ boxes.
Proof.
  intros result. unfold result. rewrite nonMaxSuppression_fst.
  pose proof (nonMaxSuppression_sublist boxes iouThreshold) as Hsub.
  split; [done|]. split.
  - apply sublist_length in Hsub.
    by rewrite (Permutation_length (array_sort_perm byConfidence boxes)) in Hsub.
  - intros d. apply nonMaxSuppression_elem_of.
Qed.

(** X6: the most confident box is always returned, and returned first:
    on a non-empty array with no [NaN] confidence the result starts with a
    box whose confidence is at least that of every candidate. *)
Theorem nonMaxSuppression_keeps_best boxes iouThreshold :
  boxes <> [] -> Forall no_nan boxes ->
  exists best rest,
    snd (nonMaxSuppression boxes iouThreshold) = best :: rest
    /\ best ∈ boxes
    /\ forall d, d ∈ boxes -> desc best d.
Proof.
  intros Hne Hnan.
  pose proof (array_sort_perm byConfidence boxes) as Hperm.
  pose proof (array_sort_sorted boxes Hnan) as Hsorted.
  rewrite nonMaxSuppression_snd. cbv zeta.
  destruct (array_sort byConfidence boxes) as [|best tl] eqn:Hs.
  { symmetry in Hperm. by apply Permutation_nil_r in Hperm. }
  cbn [length replicate seq foldl].
  unfold select_step at 2. cbn [flag lookup list_lookup default from_option].
  destruct (select_step_prefix (best :: tl) iouThreshold (seq 1 (length tl)) ([] ++ [best])
              (foldl (suppress_step (best :: tl) iouThreshold 0)
                     (<[0%nat:=true]> (false :: replicate (length tl) false))
                     (seq 1 (length (best :: tl) - 1)))) as [more Hmore].
  exists best, more. split; [exact Hmore|].
  assert (Hbest : best ∈ boxes) by (rewrite <- Hperm; by left).
  split; [done|].
  intros d Hd. rewrite <- Hperm in Hd.
  apply StronglySorted_inv in Hsorted as [_ Hall].
  apply elem_of_cons in Hd as [->|Hd].
  - rewrite Forall_forall in Hnan. specialize (Hnan best Hbest).
    unfold desc, no_nan in *. destruct (confidence best) as [| | |q]; try done.
    unfold geb. apply leb_fin. lra.
  - rewrite Forall_forall in Hall. by apply Hall.
Qed.

Lemma nonMaxSuppression_keeps_best_witness :
  exists best rest,
    snd (nonMaxSuppression three_boxes (Fin (45 # 100))) = best :: rest
    /\ best ∈ three_boxes
    /\ forall d, d ∈ three_boxes -> desc best d.
Proof.
  apply nonMaxSuppression_keeps_best; [done|]. by repeat constructor.
Defined.

(** ** The decoding of a row *)

Lemma gtb_nan_l (a : number) : (NaN >? a)%num = false.
Proof. by destruct a. Qed.

(** The scan ends on the first greatest positive score, if there is
    one. *)
Lemma scan_classes_spec predictions baseOffset dimensions :
  let best := scan_classes predictions baseOffset dimensions in
  (forall j, (5 <= j < dimensions)%nat ->
             (get predictions (baseOffset + j) >? best.1)%num = false)
  /\ (best = (zero, 0%nat)
      \/ ((zero <? best.1)%num = true
          /\ (5 + best.2 < dimensions)%nat
          /\ get predictions (baseOffset + (5 + best.2)) = best.1
          /\ forall j, (5 <= j < 5 + best.2)%nat ->
                       (get predictions (baseOffset + j) >=? best.1)%num = false)).
Proof.
  set (P := fun (j : nat) (st : number * nat) =>
    (forall j', (5 <= j' < j)%nat ->
                (get predictions (baseOffset + j') >? st.1)%num = false)
    /\ (st = (zero, 0%nat)
        \/ ((zero <? st.1)%num = true
            /\ (5 + st.2 < j)%nat
            /\ get predictions (baseOffset + (5 + st.2)) = st.1
            /\ forall j', (5 <= j' < 5 + st.2)%nat ->
                          (get predictions (baseOffset + j') >=? st.1)%num = false))).
  assert (H : P (5 + (dimensions - 5))%nat (scan_classes predictions baseOffset dimensions)).
  { unfold scan_classes. apply (foldl_seq_invariant P).
    - split; [intros j' Hj'; lia|by left].
    - intros j [m k] Hj [Hub Hfirst]. unfold scan_step. cbn [fst snd] in *.
      destruct (get predictions (baseOffset + j) >? m)%num eqn:Hgt; cbn [fst snd].
      + unfold gtb in Hgt. split.
        * intros j' Hj'. destruct (decide (j' = j)) as [->|Hne].
          -- apply ltb_irrefl.
          -- apply not_true_is_false. intros Hlt.
             assert (Hm : (m <? get predictions (baseOffset + j'))%num = true)
               by (by eapply ltb_trans).
             specialize (Hub j'). unfold gtb in Hub. rewrite Hub in Hm by lia. done.
        * right. cbn [fst snd]. split; [|split; [lia|split]].
          -- destruct Hfirst as [[= -> ->]|(Hpos & _)]; [done|by eapply ltb_trans].
          -- do 2 f_equal. lia.
          -- intros j' Hj'. apply not_true_is_false. intros Hle. unfold geb in Hle.
             assert (Hm : (m <? get predictions (baseOffset + j'))%num = true)
               by (by eapply ltb_leb_trans).
             specialize (Hub j'). unfold gtb in Hub. rewrite Hub in Hm by lia. done.
      + split.
        * intros j' Hj'. destruct (decide (j' = j)) as [->|Hne]; [done|].
          apply Hub. lia.
        * destruct Hfirst as [?|(? & ? & ? & ?)]; [by left|right].
          cbn [fst snd]. repeat split; [done|lia|done|done]. }
  destruct H as [Hub Hfirst]. split.
  - intros j Hj. apply Hub. lia.
  - destruct Hfirst as [?|(? & ? & ? & ?)]; [by left|right].
    repeat split; [done|lia|done|done].
Qed.

(** X7: the class of a row is the first of its greatest positive scores:
    no score is above the one the scan ends on; either the scan ends on
    [(0, 0)], no score being positive, or it ends on a positive score, at
    its index, and every score before it is not even equal to it. *)
Theorem scan_classes_first_max predictions baseOffset dimensions :
  let best := scan_classes predictions baseOffset dimensions in
  (forall j, (5 <= j < dimensions)%nat ->
             (get predictions (baseOffset + j) >? best.1)%num = false)
  /\ (best = (zero, 0%nat)
      \/ ((zero <? best.1)%num = true
          /\ (5 + best.2 < dimensions)%nat
          /\ get predictions (baseOffset + (5 + best.2)) = best.1
          /\ forall j, (5 <= j < 5 + best.2)%nat ->
                       (get predictions (baseOffset + j) >=? best.1)%num = false)).
Proof. apply scan_classes_spec. Qed.

(** Ties go to the lowest index. *)
Example scan_classes_tie :
  scan_classes (map Fin [0; 0; 0; 0; 1; 3 # 10; 7 # 10; 7 # 10; 1 # 10]) 0 9
  = (Fin (7 # 10), 1%nat).
Proof. reflexivity. Qed.

Lemma elem_of_decode_rows_row colors out0 rest imgWidth imgHeight thr d :
  d ∈ decode_rows colors (out0 :: rest) imgWidth imgHeight thr ->
  exists dimensions i,
    dims out0 !! 2%nat = Some dimensions
    /\ (i < default 0%nat (dims out0 !! 1%nat))%nat
    /\ decode_row colors (data out0) dimensions imgWidth imgHeight thr i = Some d.
Proof.
  unfold decode_rows. destruct (dims out0 !! 2%nat) as [dimensions|]; [|by inversion 1].
  rewrite push_rows_omap, app_nil_l. intros (i & Hi & Hrow)%list_elem_of_omap.
  apply elem_of_seq in Hi. exists dimensions, i. split; [done|]. split; [lia|done].
Qed.

Lemma decode_row_fields colors predictions dimensions imgWidth imgHeight thr i d :
  decode_row colors predictions dimensions imgWidth imgHeight thr i = Some d ->
  let objectness := get predictions (i * dimensions + 4) in
  let best := scan_classes predictions (i * dimensions) dimensions in
  (objectness >? thr)%num = true
  /\ confidence d = (objectness * best.1)%num
  /\ label d = classNames modelConfig !! best.2
  /\ color d = colors !! best.2.
Proof.
  unfold decode_row. intros H. cbv zeta.
  destruct (get predictions (i * dimensions + 4) >? thr)%num eqn:Hobj; [|done].
  destruct (scan_classes _ _ _) as [maxClassScore maxClassIndex].
  destruct (get predictions (i * dimensions + 4) * maxClassScore >? thr)%num; [|done].
  by simplify_eq.
Qed.

(** X8: every detection that [postprocess] returns comes from a row of
    the output, below the row count of its shape, whose objectness is
    above the threshold; its confidence is that objectness times the
    score the scan of the row ends on, and is above the threshold. *)
Theorem postprocess_above_threshold colors out0 rest imgWidth imgHeight thr d :
  d ∈ postprocess colors (out0 :: rest) imgWidth imgHeight thr ->
  (confidence d >? thr)%num = true
  /\ exists dimensions i,
       dims out0 !! 2%nat = Some dimensions
       /\ (i < default 0%nat (dims out0 !! 1%nat))%nat
       /\ let objectness := get (data out0) (i * dimensions + 4) in
          let best := scan_classes (data out0) (i * dimensions) dimensions in
          (objectness >? thr)%num = true
          /\ confidence d = (objectness * best.1)%num.
Proof.
  intros Hd. rewrite postprocess_nonMaxSuppression in Hd.
  apply nonMaxSuppression_elem_of, elem_of_decode_rows_row in Hd
    as (dimensions & i & Hdim & Hi & Hrow).
  split; [by eapply decode_row_confidence|].
  exists dimensions, i. split; [done|]. split; [done|].
  by destruct (decode_row_fields _ _ _ _ _ _ _ _ Hrow) as (? & ? & _).
Qed.

Lemma postprocess_above_threshold_witness :
  (confidence one_row_detection >? Fin (45 # 100))%num = true
  /\ exists dimensions i,
       dims one_row_tensor !! 2%nat = Some dimensions
       /\ (i < default 0%nat (dims one_row_tensor !! 1%nat))%nat
       /\ let objectness := get (data one_row_tensor) (i * dimensions + 4) in
          let best := scan_classes (data one_row_tensor) (i * dimensions) dimensions in
          (objectness >? Fin (45 # 100))%num = true
          /\ confidence one_row_detection = (objectness * best.1)%num.
Proof.
  apply (postprocess_above_threshold sample_colors one_row_tensor []
           (of_nat 1280) (of_nat 720)).
  fold one_row. rewrite one_row_postprocess. by left.
Defined.

(** X9: with rows of at most 85 values, every detection that
    [postprocess] returns is labelled with one of the 80 class names, and
    coloured with the colour of that class when the service has 80
    colours. *)
Theorem postprocess_label_valid colors out0 rest imgWidth imgHeight thr dimensions d :
  dims out0 !! 2%nat = Some dimensions -> (dimensions <= 85)%nat ->
  d ∈ postprocess colors (out0 :: rest) imgWidth imgHeight thr ->
  exists k name,
    (k < 80)%nat /\ classNames modelConfig !! k = Some name
    /\ label d = Some name
    /\ color d = colors !! k
    /\ (length colors = 80%nat -> is_Some (color d)).
Proof.
  intros Hdim Hle Hd. rewrite postprocess_nonMaxSuppression in Hd.
  apply nonMaxSuppression_elem_of, elem_of_decode_rows_row in Hd
    as (dimensions' & i & Hdim' & _ & Hrow).
  assert (dimensions' = dimensions) as -> by congruence.
  destruct (decode_row_fields _ _ _ _ _ _ _ _ Hrow) as (_ & _ & Hlabel & Hcolor).
  cbv zeta in Hlabel, Hcolor.
  destruct (scan_classes_spec (data out0) (i * dimensions) dimensions) as [_ Hfirst].
  cbv zeta in Hfirst.
  set (k := (scan_classes (data out0) (i * dimensions) dimensions).2) in *.
  assert (Hk : (k < 80)%nat).
  { destruct Hfirst as [Hz|(_ & Hlt & _)]; [|lia].
    unfold k. rewrite Hz. simpl. lia. }
  assert (Hlen : length (classNames modelConfig) = 80%nat) by reflexivity.
  destruct (lookup_lt_is_Some_2 (classNames modelConfig) k) as [name Hname]; [lia|].
  exists k, name. split; [done|]. split; [done|]. split; [congruence|].
  split; [done|]. intros Hcolors. rewrite Hcolor.
  apply lookup_lt_is_Some_2. lia.
Qed.

Lemma postprocess_label_valid_witness :
  exists k name,
    (k < 80)%nat /\ classNames modelConfig !! k = Some name
    /\ label one_row_detection = Some name
    /\ color one_row_detection = sample_colors !! k
    /\ (length sample_colors = 80%nat -> is_Some (color one_row_detection)).
Proof.
  apply (postprocess_label_valid sample_colors one_row_tensor []
           (of_nat 1280) (of_nat 720) (Fin (45 # 100)) 85).
  - reflexivity.
  - lia.
  - fold one_row. rewrite one_row_postprocess. by left.
Defined.

(** X10: a buffer too short to hold an objectness gives no detection,
    whatever the shape says: every read past the end is [undefined] and
    fails the first filter. *)
Theorem postprocess_short_buffer colors out0 rest imgWidth imgHeight thr :
  (length (data out0) <= 4)%nat ->
  postprocess colors (out0 :: rest) imgWidth imgHeight thr = [].
Proof.
  intros Hlen. rewrite postprocess_nonMaxSuppression.
  assert (Hrows : decode_rows colors (out0 :: rest) imgWidth imgHeight thr = []).
  { unfold decode_rows. destruct (dims out0 !! 2%nat) as [dimensions|]; [|done].
    apply foldl_fixed. intros i. unfold push_row, decode_row.
    assert (Hget : get (data out0) (i * dimensions + 4) = NaN).
    { unfold get. rewrite lookup_ge_None_2; [done|lia]. }
    by rewrite Hget, gtb_nan_l. }
  by rewrite Hrows.
Qed.

Lemma postprocess_short_buffer_witness :
  postprocess sample_colors [mkTensor [Fin 1; Fin 1; Fin 1; Fin 1] [1; 100; 85]%nat]
    (of_nat 640) (of_nat 480) (Fin (45 # 100)) = [].
Proof. apply postprocess_short_buffer. simpl. lia. Defined.

(** ** The layout of the preprocessed buffer *)

Lemma fill_pixel_write_planes height width imgData imgWidth resizeRatio
    resizedWidth resizedHeight offsetX offsetY y inputData x :
  fill_pixel height width imgData imgWidth resizeRatio
             resizedWidth resizedHeight offsetX offsetY y inputData x
  = write_planes height width
      (written_value imgData imgWidth resizeRatio resizedWidth resizedHeight offsetX offsetY)
      y inputData x.
Proof.
  unfold fill_pixel, write_planes, written_value.
  by destruct (isInside _ _ _ _ y x).
Qed.

Lemma plane_index_inj (height width c y x c' y' x' : nat) :
  (x < width)%nat -> (x' < width)%nat -> (y < height)%nat -> (y' < height)%nat ->
  (c * height * width + y * width + x = c' * height * width + y' * width + x')%nat ->
  c = c' /\ y = y' /\ x = x'.
Proof.
  intros Hx Hx' Hy Hy' E.
  destruct (Nat.div_mod_unique width (c * height + y) (c' * height + y') x x')
    as [E1 E2]; [done|done|lia|].
  destruct (Nat.div_mod_unique height c c' y y') as [E3 E4]; [done|done|lia|].
  done.
Qed.

Section Planes.
Variables (height width : nat) (value : nat -> nat -> nat -> number).

Lemma write_planes_length y inputData x :
  length (write_planes height width value y inputData x) = length inputData.
Proof. unfold write_planes. by rewrite !length_insert. Qed.

(** One pixel: its three cells hold its values, the others are as
    before. *)
Lemma write_planes_lookup y inputData x :
  (3 * (height * width) <= length inputData)%nat ->
  (y < height)%nat -> (x < width)%nat ->
  (forall c, (c < 3)%nat ->
     write_planes height width value y inputData x
       !! (c * height * width + y * width + x)%nat = Some (value c y x))
  /\ (forall k, (forall c, (c < 3)%nat -> k <> (c * height * width + y * width + x)%nat) ->
        write_planes height width value y inputData x !! k = inputData !! k).
Proof.
  intros Hlen Hy Hx.
  assert (Hin : forall c, (c < 3)%nat ->
            (c * height * width + y * width + x < length inputData)%nat) by (intros c Hc; nia).
  split.
  - intros c Hc. unfold write_planes.
    assert (Hc' : c = 0%nat \/ c = 1%nat \/ c = 2%nat) by lia.
    destruct Hc' as [-> | [-> | ->]].
    + rewrite list_lookup_insert_ne.
      2:{ intros E. apply plane_index_inj in E; [lia|done..]. }
      rewrite list_lookup_insert_ne.
      2:{ intros E. apply plane_index_inj in E; [lia|done..]. }
      apply list_lookup_insert_eq. apply Hin. lia.
    + rewrite list_lookup_insert_ne.
      2:{ intros E. apply plane_index_inj in E; [lia|done..]. }
      apply list_lookup_insert_eq. rewrite length_insert. apply Hin. lia.
    + apply list_lookup_insert_eq. rewrite !length_insert. apply Hin. lia.
  - intros k Hk. unfold write_planes.
    rewrite !list_lookup_insert_ne; [done|..].
    + intros E. apply (Hk 0%nat); [lia|done].
    + intros E. apply (Hk 1%nat); [lia|done].
    + intros E. apply (Hk 2%nat); [lia|done].
Qed.

(** The cells of the pixels [(y, x')], [x' < m], hold their values; the
    others are as in [inputData0]. *)
Lemma write_row_lookup y inputData0 :
  (3 * (height * width) <= length inputData0)%nat -> (y < height)%nat ->
  let inputData := foldl (write_planes height width value y) inputData0 (seq 0 width) in
  length inputData = length inputData0
  /\ (forall c x, (c < 3)%nat -> (x < width)%nat ->
        inputData !! (c * height * width + y * width + x)%nat = Some (value c y x))
  /\ (forall k, (forall c x, (c < 3)%nat -> (x < width)%nat ->
                   k <> (c * height * width + y * width + x)%nat) ->
        inputData !! k = inputData0 !! k).
Proof.
  intros Hlen Hy.
  set (P := fun (m : nat) (buf : list number) =>
    length buf = length inputData0
    /\ (forall c x, (c < 3)%nat -> (x < m)%nat ->
          buf !! (c * height * width + y * width + x)%nat = Some (value c y x))
    /\ (forall k, (forall c x, (c < 3)%nat -> (x < m)%nat ->
                     k <> (c * height * width + y * width + x)%nat) ->
          buf !! k = inputData0 !! k)).
  assert (H : P (0 + width)%nat
                (foldl (write_planes height width value y) inputData0 (seq 0 width))).
  { apply (foldl_seq_invariant P).
    - split; [done|]. split; [intros c x _ Hx; lia|done].
    - intros m buf Hm (Hl & Hset & Hrest).
      destruct (write_planes_lookup y buf m) as [Hnew Hold]; [lia|done|lia|].
      split; [by rewrite write_planes_length|]. split.
      + intros c x Hc Hx. destruct (decide (x = m)) as [->|Hne]; [by apply Hnew|].
        rewrite Hold; [apply Hset; [done|lia]|].
        intros c' Hc' E. apply plane_index_inj in E; [lia|lia|lia|done..].
      + intros k Hk. rewrite Hold.
        * apply Hrest. intros c x Hc Hx. apply Hk; [done|lia].
        * intros c Hc. apply Hk; [done|lia]. }
  exact H.
Qed.

(** The whole target: every cell of the first three planes holds the
    value of its pixel, the rest of the buffer is as in [inputData0]. *)
Lemma write_image_lookup inputData0 :
  (3 * (height * width) <= length inputData0)%nat ->
  let inputData :=
    foldl (fun buf y => foldl (write_planes height width value y) buf (seq 0 width))
          inputData0 (seq 0 height) in
  length inputData = length inputData0
  /\ (forall c y x, (c < 3)%nat -> (y < height)%nat -> (x < width)%nat ->
        inputData !! (c * height * width + y * width + x)%nat = Some (value c y x))
  /\ (forall k, (3 * (height * width) <= k)%nat -> inputData !! k = inputData0 !! k).
Proof.
  intros Hlen.
  set (P := fun (m : nat) (buf : list number) =>
    length buf = length inputData0
    /\ (forall c y x, (c < 3)%nat -> (y < m)%nat -> (x < width)%nat ->
          buf !! (c * height * width + y * width + x)%nat = Some (value c y x))
    /\ (forall k, (forall c y x, (c < 3)%nat -> (y < m)%nat -> (x < width)%nat ->
                     k <> (c * height * width + y * width + x)%nat) ->
          buf !! k = inputData0 !! k)).
  assert (H : P (0 + height)%nat
    (foldl (fun buf y => foldl (write_planes height width value y) buf (seq 0 width))
           inputData0 (seq 0 height))).
  { apply (foldl_seq_invariant P).
    - split; [done|]. split; [intros c y x _ Hy; lia|done].
    - intros m buf Hm (Hl & Hset & Hrest).
      destruct (write_row_lookup m buf) as (Hl' & Hnew & Hold); [lia|lia|].
      split; [congruence|]. split.
      + intros c y x Hc Hy Hx. destruct (decide (y = m)) as [->|Hne]; [by apply Hnew|].
        rewrite Hold; [apply Hset; [done|lia|done]|].
        intros c' x' Hc' Hx' E. apply plane_index_inj in E; [lia|lia|lia|lia|lia].
      + intros k Hk. rewrite Hold.
        * apply Hrest. intros c y x Hc Hy Hx. apply Hk; [done|lia|done].
        * intros c x Hc Hx. apply Hk; [done|lia|done]. }
  destruct H as (Hl & Hset & Hrest). split; [done|]. split.
  - intros c y x Hc Hy Hx. apply Hset; [done|lia|done].
  - intros k Hk. apply Hrest. intros c y x Hc Hy Hx. nia.
Qed.
End Planes.

Lemma foldl_pointwise {A B} (f g : A -> B -> A) (a : A) (l : list B) :
  (forall a x, f a x = g a x) -> foldl f a l = foldl g a l.
Proof.
  intros H. revert a. induction l as [|x l IH]; intros a; [done|].
  simpl. by rewrite H, IH.
Qed.

Lemma fill_image_write_planes height width imgData imgWidth resizeRatio
    resizedWidth resizedHeight offsetX offsetY inputData :
  fill_image height width imgData imgWidth resizeRatio
             resizedWidth resizedHeight offsetX offsetY inputData
  = foldl (fun buf y =>
             foldl (write_planes height width
                      (written_value imgData imgWidth resizeRatio
                         resizedWidth resizedHeight offsetX offsetY) y)
                   buf (seq 0 width))
          inputData (seq 0 height).
Proof.
  unfold fill_image. apply foldl_pointwise. intros buf y. unfold fill_row.
  apply foldl_pointwise. intros buf' x. apply fill_pixel_write_planes.
Qed.

Lemma letterbox_lookup batch channels height width (imageData : ImageData) :
  (3 <= batch * channels)%nat ->
  length (letterbox batch channels height width imageData)
  = (batch * channels * height * width)%nat
  /\ (forall c y x, (c < 3)%nat -> (y < height)%nat -> (x < width)%nat ->
        letterbox batch channels height width imageData
          !! (c * height * width + y * width + x)%nat
        = Some (letterbox_pixel height width imageData c y x))
  /\ (forall k, (3 * (height * width) <= k < batch * channels * height * width)%nat ->
        letterbox batch channels height width imageData !! k = Some zero).
Proof.
  intros Hplanes. unfold letterbox. rewrite fill_image_write_planes.
  match goal with
  | |- context [foldl _ (replicate ?n zero) _] =>
      destruct (write_image_lookup height width
                  (written_value (img_data imageData) (of_nat (img_width imageData))
                     (Num.min (of_nat width / of_nat (img_width imageData))%num
                              (of_nat height / of_nat (img_height imageData))%num)
                     (floor (of_nat (img_width imageData)
                             * Num.min (of_nat width / of_nat (img_width imageData))%num
                                       (of_nat height / of_nat (img_height imageData))%num)%num)
                     (floor (of_nat (img_height imageData)
                             * Num.min (of_nat width / of_nat (img_width imageData))%num
                                       (of_nat height / of_nat (img_height imageData))%num)%num)
                     ((of_nat width
                       - floor (of_nat (img_width imageData)
                                * Num.min (of_nat width / of_nat (img_width imageData))%num
                                          (of_nat height / of_nat (img_height imageData))%num))
                      / Fin 2)%num
                     ((of_nat height
                       - floor (of_nat (img_height imageData)
                                * Num.min (of_nat width / of_nat (img_width imageData))%num
                                          (of_nat height / of_nat (img_height imageData))%num))
                      / Fin 2)%num)
                  (replicate n zero)) as (Hl & Hset & Hrest)
  end.
  { rewrite length_replicate. nia. }
  cbv zeta in Hl, Hset, Hrest. rewrite length_replicate in Hl.
  split; [exact Hl|]. split.
  - intros c y x Hc Hy Hx. by apply Hset.
  - intros k Hk. rewrite Hrest by lia. apply lookup_replicate_2. lia.
Qed.

(** ** Finite values *)

Section Values.
Implicit Types (a b : number) (p q : Q).

Lemma is_value_Fin q : is_value (Fin q) q.
Proof. by exists q. Qed.

Lemma is_value_fin q : is_value (fin q) q.
Proof. exists (Qred q). split; [done|apply Qred_correct]. Qed.

Lemma is_value_equiv a p q : is_value a p -> p == q -> is_value a q.
Proof. intros (r & -> & Hr) Hpq. exists r. split; [done|]. by rewrite Hr. Qed.

Lemma is_value_of_nat (n : nat) : is_value (of_nat n) (inject_Z (Z.of_nat n)).
Proof. apply is_value_Fin. Qed.

Lemma is_value_add a b p q : is_value a p -> is_value b q -> is_value (a + b)%num (p + q).
Proof.
  intros (p' & -> & Hp) (q' & -> & Hq). eapply is_value_equiv; [apply is_value_fin|].
  by rewrite Hp, Hq.
Qed.

Lemma is_value_sub a b p q : is_value a p -> is_value b q -> is_value (a - b)%num (p - q).
Proof.
  intros (p' & -> & Hp) (q' & -> & Hq). eapply is_value_equiv; [apply is_value_fin|].
  by rewrite Hp, Hq.
Qed.

Lemma is_value_mul a b p q : is_value a p -> is_value b q -> is_value (a * b)%num (p * q).
Proof.
  intros (p' & -> & Hp) (q' & -> & Hq). eapply is_value_equiv; [apply is_value_fin|].
  by rewrite Hp, Hq.
Qed.

Lemma is_value_div a b p q :
  is_value a p -> is_value b q -> ~ q == 0 -> is_value (a / b)%num (p / q).
Proof.
  intros (p' & -> & Hp) (q' & -> & Hq) Hne. rewrite div_fin by (by rewrite Hq).
  eapply is_value_equiv; [apply is_value_fin|]. by rewrite Hp, Hq.
Qed.

Lemma is_value_floor a p : is_value a p -> is_value (floor a) (inject_Z (Qfloor p)).
Proof. intros (p' & -> & Hp). simpl. rewrite Hp. apply is_value_Fin. Qed.

Lemma is_value_min a b p q :
  is_value a p -> is_value b q ->
  exists r, is_value (Num.min a b) r /\ r <= p /\ r <= q /\ (r == p \/ r == q).
Proof.
  intros (p' & -> & Hp) (q' & -> & Hq).
  destruct (min_fin_spec p' q') as (r & -> & H1 & H2 & H3).
  exists r. split; [apply is_value_Fin|]. rewrite <- Hp, <- Hq. done.
Qed.

Lemma is_value_ltb a b p q :
  is_value a p -> is_value b q -> (a <? b)%num = true <-> p < q.
Proof. intros (p' & -> & Hp) (q' & -> & Hq). by rewrite ltb_fin, Hp, Hq. Qed.

Lemma is_value_geb a b p q :
  is_value a p -> is_value b q -> (a >=? b)%num = true <-> q <= p.
Proof. intros (p' & -> & Hp) (q' & -> & Hq). unfold geb. by rewrite leb_fin, Hp, Hq. Qed.

Lemma is_value_to_index a (n : nat) :
  is_value a (inject_Z (Z.of_nat n)) -> to_index a = Some n.
Proof.
  intros (p & -> & Hp). unfold to_index. rewrite (Qfloor_comp p _ Hp), Qfloor_Z.
  assert (E : Qeq_bool (inject_Z (Z.of_nat n)) p = true)
    by (apply Qeq_eq_bool; by rewrite Hp).
  rewrite E. replace (0 <=? Z.of_nat n)%Z with true by (symmetry; apply Z.leb_le; lia).
  cbn [andb]. by rewrite Nat2Z.id.
Qed.

Lemma in_unit_zero : in_unit zero.
Proof. exists 0. split; [done|lra]. Qed.

(** A byte over [255] is between [0] and [1]. *)
Lemma in_unit_byte (byte : nat) : (byte <= 255)%nat -> in_unit (of_nat byte / Fin 255)%num.
Proof.
  intros Hb. unfold of_nat, of_Z. rewrite div_fin by done.
  eexists. split; [reflexivity|].
  rewrite Qred_correct.
  assert (H0 : 0 <= inject_Z (Z.of_nat byte)).
  { rewrite <- (Zle_Qle 0). lia. }
  assert (H1 : inject_Z (Z.of_nat byte) <= 255).
  { change 255 with (inject_Z 255). rewrite <- Zle_Qle. lia. }
  split.
  - apply Qle_shift_div_l; [done|]. lra.
  - apply Qle_shift_div_r; [done|]. lra.
Qed.
End Values.

(** ** Where a pixel of the target comes from *)

Lemma inject_Z_pos (n : nat) : (0 < n)%nat -> 0 < inject_Z (Z.of_nat n).
Proof. intros Hn. rewrite <- (Zlt_Qlt 0). lia. Qed.

Lemma read_byte_at (imgData : list nat) (a : number) (n : nat) :
  is_value a (inject_Z (Z.of_nat n)) ->
  read_byte imgData a = default NaN (of_nat <$> imgData !! n).
Proof. intros Ha. unfold read_byte. by rewrite (is_value_to_index a n Ha). Qed.

(** The back mapping of one axis: a coordinate [t] of the target inside
    the resized span comes from the coordinate [floor ((t - o) / r)] of the
    frame, which is below its size. *)
Lemma back_map_in_range (size : nat) (ratio offset : number) (r o : Q) (t : nat) :
  0 < r -> is_value ratio r -> is_value offset o ->
  (of_nat t >=? offset)%num = true ->
  (of_nat t <? offset + floor (of_nat size * ratio))%num = true ->
  exists s : nat,
    (s < size)%nat
    /\ Z.of_nat s = Qfloor ((inject_Z (Z.of_nat t) - o) / r)
    /\ is_value (floor ((of_nat t - offset) / ratio)%num) (inject_Z (Z.of_nat s)).
Proof.
  intros Hr Hratio Ho Hge Hlt.
  pose proof (is_value_of_nat t) as Ht.
  pose proof (is_value_of_nat size) as Hs.
  pose proof (is_value_floor _ _ (is_value_mul _ _ _ _ Hs Hratio)) as Hres.
  apply (is_value_geb _ _ _ _ Ht Ho) in Hge.
  apply (is_value_ltb _ _ _ _ Ht (is_value_add _ _ _ _ Ho Hres)) in Hlt.
  pose proof (Qfloor_le (inject_Z (Z.of_nat size) * r)) as Hfl.
  set (qt := inject_Z (Z.of_nat t)) in *.
  set (qs := inject_Z (Z.of_nat size)) in *.
  set (z := Qfloor ((qt - o) / r)).
  assert (Hz0 : (0 <= z)%Z).
  { change 0%Z with (Qfloor 0). apply Qfloor_resp_le.
    apply Qle_shift_div_l; [done|]. lra. }
  assert (Hz1 : (z < Z.of_nat size)%Z).
  { rewrite Zlt_Qlt. apply Qle_lt_trans with ((qt - o) / r); [apply Qfloor_le|].
    apply Qlt_shift_div_r; [done|]. fold qs. lra. }
  exists (Z.to_nat z). split; [lia|].
  rewrite Z2Nat.id by done. split; [done|].
  apply is_value_floor, is_value_div; [by apply is_value_sub|done|lra].
Qed.

Section Geometry.
Variables (height width : nat) (imageData : ImageData).
Hypothesis height_pos : (0 < height)%nat.
Hypothesis width_pos : (0 < width)%nat.
Hypothesis img_width_pos : (0 < img_width imageData)%nat.
Hypothesis img_height_pos : (0 < img_height imageData)%nat.

Local Abbreviation qw := (inject_Z (Z.of_nat width)).
Local Abbreviation qh := (inject_Z (Z.of_nat height)).
Local Abbreviation qiw := (inject_Z (Z.of_nat (img_width imageData))).
Local Abbreviation qih := (inject_Z (Z.of_nat (img_height imageData))).
Local Abbreviation imgWidth := (of_nat (img_width imageData)).
Local Abbreviation imgHeight := (of_nat (img_height imageData)).
Local Abbreviation resizeRatio :=
  (Num.min (of_nat width / imgWidth)%num (of_nat height / imgHeight)%num).
Local Abbreviation offsetX := ((of_nat width - floor (imgWidth * resizeRatio)) / Fin 2)%num.
Local Abbreviation offsetY := ((of_nat height - floor (imgHeight * resizeRatio)) / Fin 2)%num.

(** The resize ratio is the smaller of the two ratios of the sizes. *)
Lemma resizeRatio_value :
  exists r, is_value resizeRatio r /\ 0 < r
            /\ r <= qw / qiw /\ r <= qh / qih
            /\ (r == qw / qiw \/ r == qh / qih).
Proof.
  pose proof (inject_Z_pos _ height_pos) as Hqh.
  pose proof (inject_Z_pos _ width_pos) as Hqw.
  pose proof (inject_Z_pos _ img_width_pos) as Hqiw.
  pose proof (inject_Z_pos _ img_height_pos) as Hqih.
  destruct (is_value_min (of_nat width / imgWidth)%num (of_nat height / imgHeight)%num
              (qw / qiw) (qh / qih)) as (r & Hratio & Hle1 & Hle2 & Hr).
  { apply is_value_div; [apply is_value_of_nat..|lra]. }
  { apply is_value_div; [apply is_value_of_nat..|lra]. }
  exists r. split; [done|]. split; [|done].
  destruct Hr as [-> | ->]; apply Qlt_shift_div_l; lra.
Qed.

Lemma offsetX_value r :
  is_value resizeRatio r ->
  is_value offsetX ((qw - inject_Z (Qfloor (qiw * r))) / 2).
Proof.
  intros Hr. apply is_value_div; [|apply is_value_Fin|done].
  apply is_value_sub; [apply is_value_of_nat|].
  apply is_value_floor, is_value_mul; [apply is_value_of_nat|done].
Qed.

Lemma offsetY_value r :
  is_value resizeRatio r ->
  is_value offsetY ((qh - inject_Z (Qfloor (qih * r))) / 2).
Proof.
  intros Hr. apply is_value_div; [|apply is_value_Fin|done].
  apply is_value_sub; [apply is_value_of_nat|].
  apply is_value_floor, is_value_mul; [apply is_value_of_nat|done].
Qed.

(** Inside the resized area, the pixel [(x, y)] of the target takes the
    three colour bytes of the pixel of the frame that the back mapping
    gives, at a row and a column of the frame. *)
Lemma letterbox_pixel_inside r y x :
  is_value resizeRatio r -> 0 < r ->
  isInside (floor (imgWidth * resizeRatio)%num) (floor (imgHeight * resizeRatio)%num)
           offsetX offsetY y x = true ->
  exists sx sy,
    (sx < img_width imageData)%nat /\ (sy < img_height imageData)%nat
    /\ Z.of_nat sx
       = Qfloor ((inject_Z (Z.of_nat x) - (qw - inject_Z (Qfloor (qiw * r))) / 2) / r)
    /\ Z.of_nat sy
       = Qfloor ((inject_Z (Z.of_nat y) - (qh - inject_Z (Qfloor (qih * r))) / 2) / r)
    /\ forall c, (c < 3)%nat ->
         letterbox_pixel height width imageData c y x
         = (default NaN (of_nat <$> img_data imageData
                                      !! ((sy * img_width imageData + sx) * 4 + c)%nat)
            / Fin 255)%num.
Proof.
  intros Hratio Hrpos Hin.
  unfold letterbox_pixel, written_value. cbv zeta. rewrite Hin.
  unfold isInside in Hin. apply andb_true_iff in Hin as [Hin Hy2].
  apply andb_true_iff in Hin as [Hin Hy1]. apply andb_true_iff in Hin as [Hx1 Hx2].
  destruct (back_map_in_range (img_width imageData) resizeRatio offsetX r _ x
              Hrpos Hratio (offsetX_value r Hratio) Hx1 Hx2) as (sx & Hsx & Hzx & Hox).
  destruct (back_map_in_range (img_height imageData) resizeRatio offsetY r _ y
              Hrpos Hratio (offsetY_value r Hratio) Hy1 Hy2) as (sy & Hsy & Hzy & Hoy).
  exists sx, sy. repeat (split; [done|]).
  set (n := ((sy * img_width imageData + sx) * 4)%nat).
  match goal with
  | |- context [read_byte _ ?pos] =>
      assert (Hpos : is_value pos (inject_Z (Z.of_nat n)))
  end.
  { eapply is_value_equiv.
    - apply is_value_mul; [|apply is_value_Fin].
      apply is_value_add; [|exact Hox].
      apply is_value_mul; [exact Hoy|apply is_value_of_nat].
    - unfold n. rewrite !Nat2Z.inj_mul, Nat2Z.inj_add, Nat2Z.inj_mul.
      rewrite !inject_Z_mult, inject_Z_plus, inject_Z_mult. reflexivity. }
  intros c Hc. assert (Hc' : c = 0%nat \/ c = 1%nat \/ c = 2%nat) by lia.
  destruct Hc' as [-> | [-> | ->]].
  - rewrite (read_byte_at _ _ n Hpos). by rewrite Nat.add_0_r.
  - rewrite (read_byte_at _ _ (n + 1)); [done|].
    eapply is_value_equiv; [apply is_value_add; [exact Hpos|apply is_value_Fin]|].
    rewrite Nat2Z.inj_add, inject_Z_plus. reflexivity.
  - rewrite (read_byte_at _ _ (n + 2)); [done|].
    eapply is_value_equiv; [apply is_value_add; [exact Hpos|apply is_value_Fin]|].
    rewrite Nat2Z.inj_add, inject_Z_plus. reflexivity.
Qed.

(** A pixel of the target is padding, or takes the three colour bytes of
    a pixel of the frame. *)
Lemma letterbox_pixel_source y x :
  (forall c, letterbox_pixel height width imageData c y x = zero)
  \/ exists sx sy,
       (sx < img_width imageData)%nat /\ (sy < img_height imageData)%nat
       /\ forall c, (c < 3)%nat ->
            letterbox_pixel height width imageData c y x
            = (default NaN (of_nat <$> img_data imageData
                                         !! ((sy * img_width imageData + sx) * 4 + c)%nat)
               / Fin 255)%num.
Proof.
  destruct (isInside (floor (imgWidth * resizeRatio)%num)
                     (floor (imgHeight * resizeRatio)%num) offsetX offsetY y x) eqn:Hin.
  - right. destruct resizeRatio_value as (r & Hratio & Hrpos & _).
    destruct (letterbox_pixel_inside r y x Hratio Hrpos Hin)
      as (sx & sy & ? & ? & _ & _ & ?).
    by exists sx, sy.
  - left. intros c. unfold letterbox_pixel, written_value. cbv zeta. by rewrite Hin.
Qed.
End Geometry.

(** On a frame as the canvas gives it, every value written is between
    [0] and [1]. *)
Lemma letterbox_pixel_in_unit height width (imageData : ImageData) c y x :
  (0 < height)%nat -> (0 < width)%nat -> well_formed imageData -> (c < 3)%nat ->
  in_unit (letterbox_pixel height width imageData c y x).
Proof.
  intros Hh Hw [Hlen Hbytes] Hc.
  destruct (decide (img_width imageData = 0%nat \/ img_height imageData = 0%nat))
    as [Hzero|Hpos].
  { unfold letterbox_pixel, written_value. cbv zeta.
    rewrite (isInside_zero_sized height width imageData y x Hzero).
    apply in_unit_zero. }
  destruct (letterbox_pixel_source height width imageData Hh Hw) with (y := y) (x := x)
    as [Hpad | (sx & sy & Hsx & Hsy & Hsrc)]; [lia|lia| |].
  - rewrite Hpad. apply in_unit_zero.
  - rewrite (Hsrc c Hc).
    destruct (lookup_lt_is_Some_2 (img_data imageData)
                ((sy * img_width imageData + sx) * 4 + c)) as [byte Hbyte]; [nia|].
    rewrite Hbyte. simpl. apply in_unit_byte.
    rewrite Forall_forall in Hbytes. apply Hbytes. by eapply list_elem_of_lookup_2.
Qed.

Lemma write_image_Forall (P : number -> Prop) height width
    (value : nat -> nat -> nat -> number) inputData :
  (forall c y x, (c < 3)%nat -> P (value c y x)) ->
  Forall P inputData ->
  Forall P (foldl (fun buf y => foldl (write_planes height width value y) buf (seq 0 width))
                  inputData (seq 0 height)).
Proof.
  intros Hvalue Hbuf. apply (foldl_preserves (Forall P)); [|done].
  intros y buf _ Hy. apply (foldl_preserves (Forall P)); [|done].
  intros x buf' _ Hx. unfold write_planes.
  repeat apply Forall_insert; try done; apply Hvalue; lia.
Qed.

(** A frame of the size of the target is not resized: every pixel is
    inside, and comes from the pixel of the frame at the same place. *)
Lemma letterbox_pixel_same_size height width (imageData : ImageData) c y x :
  (0 < height)%nat -> (0 < width)%nat ->
  img_width imageData = width -> img_height imageData = height ->
  (c < 3)%nat -> (y < height)%nat -> (x < width)%nat ->
  letterbox_pixel height width imageData c y x
  = (default NaN (of_nat <$> img_data imageData !! ((y * width + x) * 4 + c)%nat)
     / Fin 255)%num.
Proof.
  intros Hh Hw Hiw Hih Hc Hy Hx.
  assert (Hiw' : (0 < img_width imageData)%nat) by lia.
  assert (Hih' : (0 < img_height imageData)%nat) by lia.
  destruct (resizeRatio_value height width imageData Hh Hw Hiw' Hih')
    as (r & Hratio & Hrpos & _ & _ & Hr).
  pose proof (inject_Z_pos _ Hh) as Hqh. pose proof (inject_Z_pos _ Hw) as Hqw.
  assert (Hr1 : r == 1).
  { rewrite Hiw, Hih in Hr. destruct Hr as [-> | ->]; field; lra. }
  pose proof (offsetX_value height width imageData _ Hratio) as Hox.
  pose proof (offsetY_value height width imageData _ Hratio) as Hoy.
  assert (Hfw : Qfloor (inject_Z (Z.of_nat (img_width imageData)) * r) = Z.of_nat width).
  { rewrite Hiw. rewrite <- (Qfloor_Z (Z.of_nat width)) at 2.
    apply Qfloor_comp. rewrite Hr1. ring. }
  assert (Hfh : Qfloor (inject_Z (Z.of_nat (img_height imageData)) * r) = Z.of_nat height).
  { rewrite Hih. rewrite <- (Qfloor_Z (Z.of_nat height)) at 2.
    apply Qfloor_comp. rewrite Hr1. ring. }
  rewrite Hfw in Hox. rewrite Hfh in Hoy.
  pose proof (is_value_of_nat x) as Hvx. pose proof (is_value_of_nat y) as Hvy.
  assert (Hqx : 0 <= inject_Z (Z.of_nat x) < inject_Z (Z.of_nat width)).
  { rewrite <- (Zle_Qle 0), <- Zlt_Qlt. lia. }
  assert (Hqy : 0 <= inject_Z (Z.of_nat y) < inject_Z (Z.of_nat height)).
  { rewrite <- (Zle_Qle 0), <- Zlt_Qlt. lia. }
  assert (Hrw : is_value (floor (of_nat (img_width imageData)
                    * Num.min (of_nat width / of_nat (img_width imageData))%num
                              (of_nat height / of_nat (img_height imageData))%num)%num)
                  (inject_Z (Z.of_nat width))).
  { rewrite <- Hfw. apply is_value_floor, is_value_mul; [apply is_value_of_nat|done]. }
  assert (Hrh : is_value (floor (of_nat (img_height imageData)
                    * Num.min (of_nat width / of_nat (img_width imageData))%num
                              (of_nat height / of_nat (img_height imageData))%num)%num)
                  (inject_Z (Z.of_nat height))).
  { rewrite <- Hfh. apply is_value_floor, is_value_mul; [apply is_value_of_nat|done]. }
  destruct (letterbox_pixel_inside height width imageData Hh Hw Hiw' Hih' r y x
              Hratio Hrpos) as (sx & sy & _ & _ & Hsx & Hsy & Hsrc).
  { unfold isInside. repeat (apply andb_true_iff; split).
    - apply (is_value_geb _ _ _ _ Hvx Hox). unfold Qdiv. lra.
    - apply (is_value_ltb _ _ _ _ Hvx (is_value_add _ _ _ _ Hox Hrw)). unfold Qdiv. lra.
    - apply (is_value_geb _ _ _ _ Hvy Hoy). unfold Qdiv. lra.
    - apply (is_value_ltb _ _ _ _ Hvy (is_value_add _ _ _ _ Hoy Hrh)). unfold Qdiv. lra. }
  rewrite Hfw in Hsx. rewrite Hfh in Hsy.
  assert (sx = x) as ->.
  { apply Nat2Z.inj. rewrite Hsx. rewrite <- (Qfloor_Z (Z.of_nat x)) at 2.
    apply Qfloor_comp. rewrite Hr1. field. }
  assert (sy = y) as ->.
  { apply Nat2Z.inj. rewrite Hsy. rewrite <- (Qfloor_Z (Z.of_nat y)) at 2.
    apply Qfloor_comp. rewrite Hr1. field. }
  rewrite (Hsrc c Hc). by rewrite Hiw.
Qed.



(** X12: [preprocess] never reads outside the frame: in a frame of
    positive width and height, every value of the three planes is the
    padding [0] or a colour byte, over [255], of a pixel at a row and a
    column of the frame, the byte of the channel of the plane. *)
Theorem preprocess_reads_frame (imageData : ImageData) c y x :
  (0 < img_width imageData)%nat -> (0 < img_height imageData)%nat ->
  (c < 3)%nat -> (y < 640)%nat -> (x < 640)%nat ->
  exists inputData,
    preprocess imageData = Resolved inputData
    /\ (inputData !! (c * 640 * 640 + y * 640 + x)%nat = Some zero
        \/ exists sx sy,
             (sx < img_width imageData)%nat /\ (sy < img_height imageData)%nat
             /\ inputData !! (c * 640 * 640 + y * 640 + x)%nat
                = Some (default NaN
                          (of_nat <$> img_data imageData
                                        !! ((sy * img_width imageData + sx) * 4 + c)%nat)
                        / Fin 255)%num).
Proof.
  intros Hiw Hih Hc Hy Hx.
  exists (letterbox 1 3 640 640 imageData). split; [apply preprocess_resolved|].
  destruct (letterbox_lookup 1 3 640 640 imageData) as (_ & Hset & _); [lia|].
  rewrite (Hset c y x Hc Hy Hx).
  destruct (letterbox_pixel_source 640 640 imageData) with (y := y) (x := x)
    as [Hpad | (sx & sy & Hsx & Hsy & Hsrc)]; [lia|lia|done|done| |].
  - left. by rewrite Hpad.
  - right. exists sx, sy. split; [done|]. split; [done|]. by rewrite (Hsrc c Hc).
Qed.

Lemma preprocess_reads_frame_witness :
  exists inputData,
    preprocess black_frame = Resolved inputData
    /\ (inputData !! (2 * 640 * 640 + 100 * 640 + 7)%nat = Some zero
        \/ exists sx sy,
             (sx < 640)%nat /\ (sy < 480)%nat
             /\ inputData !! (2 * 640 * 640 + 100 * 640 + 7)%nat
                = Some (default NaN
                          (of_nat <$> img_data black_frame !! ((sy * 640 + sx) * 4 + 2)%nat)
                        / Fin 255)%num).
Proof.
  apply (preprocess_reads_frame black_frame 2 100 7); simpl; lia.
Defined.

(** X13: on a frame that holds four bytes for each of its pixels, every
    value of the buffer of [preprocess] is between [0] and [1]. *)
Theorem preprocess_unit_range (imageData : ImageData) :
  well_formed imageData ->
  exists inputData,
    preprocess imageData = Resolved inputData /\ Forall in_unit inputData.
Proof.
  intros Hwf. exists (letterbox 1 3 640 640 imageData).
  split; [apply preprocess_resolved|].
  unfold letterbox. rewrite fill_image_write_planes.
  apply write_image_Forall.
  - intros c y x Hc.
    apply (letterbox_pixel_in_unit 640 640 imageData c y x); [lia|lia|done|done].
  - apply Forall_replicate, in_unit_zero.
Qed.

Lemma preprocess_unit_range_witness :
  exists inputData,
    preprocess (mkImageData [255; 128; 0; 255; 12; 34; 56; 255]%nat 2 1) = Resolved inputData
    /\ Forall in_unit inputData.
Proof.
  apply preprocess_unit_range. split; [reflexivity|].
  repeat constructor; lia.
Defined.

(** X14: a frame of 640 by 640 is copied pixel for pixel, with no
    padding: the value of channel [c] at row [y] and column [x] is the
    byte of that channel of the pixel [(x, y)] of the frame, over
    [255]. *)
Theorem preprocess_same_size (imageData : ImageData) c y x :
  img_width imageData = 640%nat -> img_height imageData = 640%nat ->
  (c < 3)%nat -> (y < 640)%nat -> (x < 640)%nat ->
  exists inputData,
    preprocess imageData = Resolved inputData
    /\ inputData !! (c * 640 * 640 + y * 640 + x)%nat
       = Some (default NaN (of_nat <$> img_data imageData !! ((y * 640 + x) * 4 + c)%nat)
               / Fin 255)%num.
Proof.
  intros Hiw Hih Hc Hy Hx.
  exists (letterbox 1 3 640 640 imageData). split; [apply preprocess_resolved|].
  destruct (letterbox_lookup 1 3 640 640 imageData) as (_ & Hset & _); [lia|].
  rewrite (Hset c y x Hc Hy Hx).
  by rewrite (letterbox_pixel_same_size 640 640 imageData c y x) by (done || lia).
Qed.

Lemma preprocess_same_size_witness :
  exists inputData,
    preprocess grey_frame = Resolved inputData
    /\ inputData !! (1 * 640 * 640 + 2 * 640 + 3)%nat
       = Some (default NaN (of_nat <$> img_data grey_frame !! ((2 * 640 + 3) * 4 + 1)%nat)
               / Fin 255)%num.
Proof. apply (preprocess_same_size grey_frame 1 2 3); (reflexivity || lia). Defined.

(** ** The alpha bytes *)

Lemma finite_add (a b : number) :
  finite (a + b)%num = true -> finite a = true /\ finite b = true.
Proof. by destruct a, b. Qed.

Lemma finite_mul (a b : number) :
  finite (a * b)%num = true -> finite a = true /\ finite b = true.
Proof.
  destruct a as [| | |p], b as [| | |q]; try done; simpl;
    try (destruct (p ?= 0); done); try (destruct (q ?= 0); done).
Qed.

Lemma finite_floor (a : number) :
  finite (floor a) = true -> exists z, floor a = Fin (inject_Z z).
Proof. destruct a as [| | |p]; try done. intros _. by exists (Qfloor p). Qed.

Lemma to_index_finite (a : number) (k : nat) : to_index a = Some k -> finite a = true.
Proof. by destruct a. Qed.

Lemma to_index_value (a : number) (m : Z) (k : nat) :
  is_value a (inject_Z m) -> to_index a = Some k -> (0 <= m)%Z /\ k = Z.to_nat m.
Proof.
  intros (p & -> & Hp). unfold to_index. rewrite (Qfloor_comp p _ Hp), Qfloor_Z.
  destruct (Qeq_bool _ _); [|done]. destruct (0 <=? m)%Z eqn:E; [|done].
  apply Z.leb_le in E. cbn [andb]. by intros [= <-].
Qed.

(** The position of a pixel is a multiple of [4], and the positions read
    after it in the pixel are not the position of its alpha byte. *)
Lemma pixel_position (a b : number) (imgWidth : nat) :
  let origPos := ((floor a * of_nat imgWidth + floor b) * Fin 4)%num in
  (forall k, to_index origPos = Some k -> (k mod 4 = 0)%nat)
  /\ (forall k, to_index (origPos + Fin 1)%num = Some k -> (k mod 4 = 1)%nat)
  /\ (forall k, to_index (origPos + Fin 2)%num = Some k -> (k mod 4 = 2)%nat).
Proof.
  intros origPos.
  assert (Hint : finite origPos = true ->
            exists m, is_value origPos (inject_Z (m * 4))).
  { intros Hfin. unfold origPos in *. apply finite_mul in Hfin as [Hfin _].
    apply finite_add in Hfin as [Hfa Hfb]. apply finite_mul in Hfa as [Hfa _].
    destruct (finite_floor a Hfa) as [za ->]. destruct (finite_floor b Hfb) as [zb ->].
    exists (za * Z.of_nat imgWidth + zb)%Z. eapply is_value_equiv.
    - apply is_value_mul; [|apply is_value_Fin].
      apply is_value_add; [|apply is_value_Fin].
      apply is_value_mul; [apply is_value_Fin|apply is_value_of_nat].
    - rewrite inject_Z_mult, inject_Z_plus, inject_Z_mult. reflexivity. }
  assert (Hmod : forall (c : nat) (m : Z) (k : nat),
            (c < 4)%nat -> (0 <= m * 4 + Z.of_nat c)%Z ->
            k = Z.to_nat (m * 4 + Z.of_nat c) -> (k mod 4 = c)%nat).
  { intros c m k Hc Hpos ->. symmetry.
    apply (Nat.mod_unique _ 4 (Z.to_nat m)); [done|]. lia. }
  split; [|split].
  - intros k Hk. destruct (Hint (to_index_finite _ _ Hk)) as [m Hm].
    destruct (to_index_value _ _ _ Hm Hk) as [Hpos Hk'].
    apply (Hmod 0%nat m k); [lia|lia|]. rewrite Hk'. f_equal. lia.
  - intros k Hk. pose proof (to_index_finite _ _ Hk) as Hfin.
    apply finite_add in Hfin as [Hfin _]. destruct (Hint Hfin) as [m Hm].
    assert (Hv : is_value (origPos + Fin 1)%num (inject_Z (m * 4 + 1))).
    { eapply is_value_equiv; [apply is_value_add; [exact Hm|apply is_value_Fin]|].
      rewrite inject_Z_plus. reflexivity. }
    destruct (to_index_value _ _ _ Hv Hk) as [Hpos Hk'].
    apply (Hmod 1%nat m k); [lia|lia|]. rewrite Hk'. f_equal.
  - intros k Hk. pose proof (to_index_finite _ _ Hk) as Hfin.
    apply finite_add in Hfin as [Hfin _]. destruct (Hint Hfin) as [m Hm].
    assert (Hv : is_value (origPos + Fin 2)%num (inject_Z (m * 4 + 2))).
    { eapply is_value_equiv; [apply is_value_add; [exact Hm|apply is_value_Fin]|].
      rewrite inject_Z_plus. reflexivity. }
    destruct (to_index_value _ _ _ Hv Hk) as [Hpos Hk'].
    apply (Hmod 2%nat m k); [lia|lia|]. rewrite Hk'. f_equal.
Qed.

Lemma read_byte_same_colours (imgData imgData' : list nat) (a : number) :
  same_colours imgData imgData' ->
  (forall k, to_index a = Some k -> (k mod 4 <> 3)%nat) ->
  read_byte imgData a = read_byte imgData' a.
Proof.
  intros Hsame Hk. unfold read_byte. destruct (to_index a) as [k|]; [|done].
  by rewrite (Hsame k) by (by apply Hk).
Qed.

Lemma written_value_same_colours imgData imgData' imgWidth resizeRatio
    resizedWidth resizedHeight offsetX offsetY c y x :
  same_colours imgData imgData' ->
  written_value imgData (of_nat imgWidth) resizeRatio
                resizedWidth resizedHeight offsetX offsetY c y x
  = written_value imgData' (of_nat imgWidth) resizeRatio
                  resizedWidth resizedHeight offsetX offsetY c y x.
Proof.
  intros Hsame. unfold written_value.
  destruct (isInside _ _ _ _ y x); [|done]. cbv zeta.
  destruct (pixel_position ((of_nat y - offsetY) / resizeRatio)%num
                           ((of_nat x - offsetX) / resizeRatio)%num imgWidth)
    as (H0 & H1 & H2).
  cbv zeta in H0, H1, H2.
  destruct c as [|[|c]]; f_equal; apply read_byte_same_colours; try done;
    intros k Hk; [rewrite (H0 k Hk)|rewrite (H1 k Hk)|rewrite (H2 k Hk)]; lia.
Qed.

(** X15: the alpha bytes are discarded: two frames of the same size whose
    buffers differ in alpha bytes only are preprocessed to the same
    buffer. *)
Theorem preprocess_ignores_alpha (imageData imageData' : ImageData) :
  img_width imageData = img_width imageData' ->
  img_height imageData = img_height imageData' ->
  same_colours (img_data imageData) (img_data imageData') ->
  preprocess imageData = preprocess imageData'.
Proof.
  intros Hw Hh Hsame. rewrite !preprocess_resolved. f_equal.
  unfold letterbox. rewrite !fill_image_write_planes, <- Hw, <- Hh.
  apply foldl_pointwise. intros buf y. apply foldl_pointwise. intros buf' x.
  unfold write_planes. by rewrite !(written_value_same_colours _ _ _ _ _ _ _ _ _ _ _ Hsame).
Qed.

Lemma preprocess_ignores_alpha_witness :
  preprocess (mkImageData [255; 128; 0; 255; 12; 34; 56; 255]%nat 2 1)
  = preprocess (mkImageData [255; 128; 0; 0; 12; 34; 56; 77]%nat 2 1).
Proof.
  apply preprocess_ignores_alpha; [reflexivity..|].
  intros k Hk. do 8 (destruct k as [|k]; [done || (exfalso; by apply Hk)|]). done.
Defined.

(** ** The colours of the constructor *)

Lemma letters_get (k : nat) :
  (k < 16)%nat -> exists ch, String.get k letters = Some ch /\ hex_digit ch.
Proof.
  intros Hk. unfold hex_digit.
  do 16 (destruct k as [|k];
         [eexists; split; [reflexivity|]; simpl; repeat first [by left | right]|]).
  lia.
Qed.

Lemma string_of_list_ascii_snoc (digits : list Ascii.ascii) (ch : Ascii.ascii) :
  String.string_of_list_ascii (digits ++ [ch])
  = String.string_of_list_ascii digits +:+ String ch EmptyString.
Proof. induction digits as [|d digits IH]; [done|]. simpl. by rewrite IH. Qed.

(** A draw in [[0, 1)] selects one of the sixteen letters. *)
Lemma draw_letter (a : number) :
  (exists q, a = Fin q /\ 0 <= q < 1) ->
  exists k, (k < 16)%nat /\ to_index (floor (a * Fin 16)%num) = Some k.
Proof.
  intros (q & -> & Hq).
  set (z := Qfloor (q * 16)).
  assert (Hz0 : (0 <= z)%Z).
  { change 0%Z with (Qfloor 0). apply Qfloor_resp_le. lra. }
  assert (Hz1 : (z < 16)%Z).
  { rewrite Zlt_Qlt. apply Qle_lt_trans with (q * 16); [apply Qfloor_le|].
    change (inject_Z 16) with 16. lra. }
  exists (Z.to_nat z). split; [lia|].
  apply is_value_to_index. rewrite Z2Nat.id by done.
  apply is_value_floor, is_value_mul; apply is_value_Fin.
Qed.

Lemma color_step_hex random color drawn digits i :
  unit_draws random ->
  color = ("#" +:+ String.string_of_list_ascii digits) -> Forall hex_digit digits ->
  exists ch,
    hex_digit ch
    /\ color_step random (color, drawn) i
       = (("#" +:+ String.string_of_list_ascii (digits ++ [ch])), S drawn).
Proof.
  intros Hdraws -> Hdigits. unfold color_step.
  destruct (draw_letter (random drawn) (Hdraws drawn)) as (k & Hk & ->).
  destruct (letters_get k Hk) as (ch & -> & Hch).
  exists ch. split; [done|]. by rewrite string_of_list_ascii_snoc.
Qed.

Lemma getRandomColor_hex random drawn :
  unit_draws random ->
  hex_color (getRandomColor random drawn).1
  /\ (getRandomColor random drawn).2 = (drawn + 6)%nat.
Proof.
  intros Hdraws. unfold getRandomColor.
  set (P := fun (i : nat) (st : string * nat) =>
    (exists digits, length digits = i /\ Forall hex_digit digits
                    /\ st.1 = ("#" +:+ String.string_of_list_ascii digits))
    /\ st.2 = (drawn + i)%nat).
  assert (H : P (0 + 6)%nat (foldl (color_step random) ("#", drawn) (seq 0 6))).
  { apply (foldl_seq_invariant P).
    - split; [|simpl; lia]. by exists [].
    - intros i [color n] _ [(digits & Hlen & Hdigits & Hcolor) Hn]. cbn [fst snd] in *.
      destruct (color_step_hex random color n digits i Hdraws Hcolor Hdigits)
        as (ch & Hch & ->).
      split; [|cbn [snd]; lia]. cbn [fst]. exists (digits ++ [ch]).
      split; [rewrite length_app; simpl; lia|]. split; [|done].
      apply Forall_app. split; [done|]. by constructor. }
  destruct H as [(digits & Hlen & Hdigits & Hcolor) Hn]. split; [|done].
  by exists digits.
Qed.

(** X16: a new service is not loaded and has one colour for each of the
    80 class names; when every draw of [Math.random] is in [[0, 1)], each
    colour is a [#] followed by six hexadecimal digits. *)
Theorem constructor_colors (random : nat -> number) :
  let svc := constructor random in
  session svc = None /\ modelLoading svc = false /\ modelLoaded svc = false
  /\ length (colors svc) = length (classNames modelConfig)
  /\ (unit_draws random -> Forall hex_color (colors svc)).
Proof.
  unfold constructor.
  set (P := fun (i : nat) (st : list string * nat) =>
    length st.1 = i /\ (unit_draws random -> Forall hex_color st.1)).
  assert (H : P (0 + length (classNames modelConfig))%nat
                (foldl (push_color random) ([], 0%nat)
                       (seq 0 (length (classNames modelConfig))))).
  { apply (foldl_seq_invariant P).
    - split; [done|]. intros _. constructor.
    - intros i [cs n] _ [Hlen Hhex]. cbn [fst snd] in *. unfold push_color.
      destruct (getRandomColor random n) as [color n'] eqn:Hcolor.
      split; cbn [fst snd]; [rewrite length_app; simpl; lia|].
      intros Hdraws. apply Forall_app. split; [by apply Hhex|].
      constructor; [|constructor].
      destruct (getRandomColor_hex random n Hdraws) as [Hc _]. by rewrite Hcolor in Hc. }
  destruct (foldl _ _ _) as [cs n]. destruct H as [Hlen Hhex]. cbn [fst snd] in *.
  by repeat split.
Qed.

Lemma constructor_colors_witness :
  Forall hex_color (colors (constructor (fun i => Fin (Z.of_nat (i mod 16) # 16)))).
Proof.
  apply (constructor_colors (fun i => Fin (Z.of_nat (i mod 16) # 16))).
  intros i. eexists. split; [reflexivity|].
  pose proof (Nat.mod_upper_bound i 16) as Hi.
  unfold Qle, Qlt. simpl. lia.
Defined.

Example getRandomColor_sample :
  getRandomColor (fun i => Fin (Z.of_nat (i mod 16) # 16)) 9 = ("#9ABCDE", 15%nat).
Proof. reflexivity. Qed.

(** ** The life of the service *)

Lemma constructor_settled (random : nat -> number) : settled (constructor random).
Proof.
  unfold constructor. destruct (foldl _ _ _) as [cs n]. split; [done|]. by intros.
Qed.

Lemma loadModel_settled env svc :
  settled svc ->
  settled (loadModel env svc).1
  /\ colors (loadModel env svc).1 = colors svc
  /\ match (loadModel env svc).2 with
     | Resolved loaded => loaded = true /\ modelLoaded (loadModel env svc).1 = true
     | Rejected _ => modelLoaded (loadModel env svc).1 = false
     end.
Proof.
  intros [Hloading Hsession]. unfold loadModel, settled.
  destruct (modelLoaded svc) eqn:Hloaded; cbn [fst snd].
  { repeat split; try done; eauto. }
  rewrite Hloading. destruct (createSession env) as [s|error]; cbn.
  - repeat split; try done; eauto.
  - repeat split; try done; eauto.
Qed.

Lemma postprocess_above colors output imgWidth imgHeight thr :
  Forall (above thr) (postprocess colors output imgWidth imgHeight thr).
Proof.
  apply Forall_forall. intros d Hd. rewrite postprocess_nonMaxSuppression in Hd.
  apply nonMaxSuppression_elem_of in Hd.
  destruct output as [|out0 rest]; [by inversion Hd|].
  apply elem_of_decode_rows in Hd as (dimensions & i & _ & Hd).
  by eapply decode_row_confidence.
Qed.

(** What [detect] does on a service with no load under way. *)
Lemma detect_settled env svc imageData confidenceThreshold :
  settled svc ->
  settled (detect env svc imageData confidenceThreshold).1
  /\ colors (detect env svc imageData confidenceThreshold).1 = colors svc
  /\ match (detect env svc imageData confidenceThreshold).2 with
     | Resolved detections =>
         modelLoaded (detect env svc imageData confidenceThreshold).1 = true
         /\ exists s output,
              session (detect env svc imageData confidenceThreshold).1 = Some s
              /\ run s (letterbox 1 3 640 640 imageData) = Resolved output
              /\ detections
                 = postprocess (colors svc) output
                     (of_nat (img_width imageData)) (of_nat (img_height imageData))
                     (threshold_or_default confidenceThreshold)
     | Rejected _ => True
     end.
Proof.
  intros Hsettled. unfold detect.
  destruct (loadModel_settled env svc Hsettled) as (Hs & Hc & Hr).
  assert (Hload : exists svc' loaded,
            (if modelLoaded svc then (svc, Resolved true) else loadModel env svc)
            = (svc', loaded)
            /\ settled svc' /\ colors svc' = colors svc
            /\ match loaded with
               | Resolved _ => modelLoaded svc' = true
               | Rejected _ => True
               end).
  { destruct (modelLoaded svc) eqn:Hloaded.
    - exists svc, (Resolved true). split; [done|]. split; [done|]. by split.
    - destruct (loadModel env svc) as [svc' loaded]. exists svc', loaded.
      cbn [fst snd] in *. split; [done|]. split; [done|]. split; [done|].
      destruct loaded; [by destruct Hr|done]. }
  destruct Hload as (svc' & loaded & -> & Hs' & Hc' & Hl').
  destruct loaded as [loaded|error]; [|by split].
  rewrite preprocess_resolved.
  destruct (session svc') as [s|] eqn:Hsession; [|by split].
  destruct (run s (letterbox 1 3 640 640 imageData)) as [output|error] eqn:Hrun;
    [|by split].
  cbn [fst snd]. split; [done|]. split; [done|]. split; [done|].
  exists s, output. by rewrite Hc'.
Qed.

(** X17: a service is always left with no load under way and, once
    loaded, with its session: the constructor gives such a service, and
    [loadModel] and [detect] keep it so and keep its colours.  On such a
    service [loadModel] resolves with [true] only, exactly when the model
    is loaded after the call. *)
Theorem service_settled (random : nat -> number) env svc imageData confidenceThreshold :
  settled (constructor random)
  /\ (settled svc ->
      settled (loadModel env svc).1
      /\ colors (loadModel env svc).1 = colors svc
      /\ settled (detect env svc imageData confidenceThreshold).1
      /\ colors (detect env svc imageData confidenceThreshold).1 = colors svc
      /\ match (loadModel env svc).2 with
         | Resolved loaded => loaded = true /\ modelLoaded (loadModel env svc).1 = true
         | Rejected _ => modelLoaded (loadModel env svc).1 = false
         end).
Proof.
  split.
  - apply constructor_settled.
  - intros Hsettled.
    destruct (loadModel_settled env svc Hsettled) as (? & ? & ?).
    destruct (detect_settled env svc imageData confidenceThreshold Hsettled) as (? & ? & _).
    split; [done|]. split; [done|]. split; [done|]. by split.
Qed.

Lemma service_settled_witness :
  let svc := constructor (fun _ => Fin (1 # 2)) in
  settled (loadModel sample_env svc).1
  /\ colors (loadModel sample_env svc).1 = colors svc
  /\ settled (detect sample_env svc black_frame None).1
  /\ colors (detect sample_env svc black_frame None).1 = colors svc
  /\ match (loadModel sample_env svc).2 with
     | Resolved loaded => loaded = true /\ modelLoaded (loadModel sample_env svc).1 = true
     | Rejected _ => modelLoaded (loadModel sample_env svc).1 = false
     end.
Proof.
  intros svc.
  destruct (service_settled (fun _ => Fin (1 # 2)) sample_env svc black_frame None)
    as [Hnew Hkeep].
  by apply Hkeep.
Defined.

(** X18: the model is fetched once: after a [loadModel] that resolved,
    [detect] leaves the service as it is and gives the same result
    whatever there is to fetch. *)
Theorem detect_reuses_session env svc loaded env' env'' imageData confidenceThreshold :
  settled svc ->
  (loadModel env svc).2 = Resolved loaded ->
  let svc' := (loadModel env svc).1 in
  (detect env' svc' imageData confidenceThreshold).1 = svc'
  /\ detect env' svc' imageData confidenceThreshold
     = detect env'' svc' imageData confidenceThreshold.
Proof.
  intros Hsettled Hresolved svc'.
  destruct (loadModel_settled env svc Hsettled) as (_ & _ & Hr).
  rewrite Hresolved in Hr. destruct Hr as [_ Hloaded]. fold svc' in Hloaded.
  unfold detect. rewrite Hloaded.
  split; [|done].
  rewrite preprocess_resolved.
  destruct (session svc') as [s|]; [|done].
  by destruct (run s _).
Qed.

Lemma detect_reuses_session_witness :
  let svc' := (loadModel sample_env (constructor (fun _ => Fin (1 # 2)))).1 in
  (detect no_model svc' black_frame None).1 = svc'
  /\ detect no_model svc' black_frame None = detect sample_env svc' black_frame None.
Proof.
  apply (detect_reuses_session sample_env (constructor (fun _ => Fin (1 # 2))) true).
  - apply constructor_settled.
  - unfold loadModel, constructor. by destruct (foldl _ _ _).
Defined.

(** ** The loop of the hook *)

Lemma tick_invariant env props frame svc detections :
  let threshold :=
    threshold_or_default
      (Some (default (Fin (45 # 100)) (UseObjectDetection.confidenceThreshold props))) in
  settled svc -> Forall (above threshold) detections ->
  settled (UseObjectDetection.tick env props frame (svc, detections)).1
  /\ colors (UseObjectDetection.tick env props frame (svc, detections)).1 = colors svc
  /\ Forall (above threshold) (UseObjectDetection.tick env props frame (svc, detections)).2.
Proof.
  intros threshold Hsettled Habove. unfold UseObjectDetection.tick.
  destruct frame as [imageData|]; [|done].
  destruct (detect_settled env svc imageData
              (Some (default (Fin (45 # 100)) (UseObjectDetection.confidenceThreshold props)))
              Hsettled) as (Hs & Hc & Hr).
  destruct (detect env svc imageData _) as [svc' [results|error]]; cbn [fst snd] in *.
  - split; [done|]. split; [done|].
    destruct Hr as (_ & s & output & _ & _ & ->). apply postprocess_above.
  - done.
Qed.

(** X19: whatever the frames and whatever fails, the loop of the hook
    publishes only detections above the confidence threshold in effect:
    after any number of ticks (the video not ready, the model not
    fetched, the engine failing or answering) the service is settled,
    keeps its colours, and every published detection has a confidence
    above the threshold, if the first published ones had. *)
Theorem run_ticks_invariant env props frames svc detections :
  let threshold :=
    threshold_or_default
      (Some (default (Fin (45 # 100)) (UseObjectDetection.confidenceThreshold props))) in
  settled svc -> Forall (above threshold) detections ->
  settled (run_ticks env props frames (svc, detections)).1
  /\ colors (run_ticks env props frames (svc, detections)).1 = colors svc
  /\ Forall (above threshold) (run_ticks env props frames (svc, detections)).2.
Proof.
  intros threshold Hsettled Habove. unfold run_ticks.
  apply (foldl_preserves
    (fun st : YOLOv5Service * list DetectionResult =>
       settled st.1 /\ colors st.1 = colors svc /\ Forall (above threshold) st.2));
    [|done].
  intros frame [svc' detections'] _ (Hs & Hc & Ha). cbn [fst snd] in *.
  destruct (tick_invariant env props frame svc' detections' Hs Ha) as (? & ? & ?).
  split; [done|]. split; [congruence|done].
Qed.

Lemma run_ticks_invariant_witness :
  let svc := constructor (fun _ => Fin (1 # 2)) in
  let st := run_ticks sample_env default_props [None; Some black_frame; None] (svc, []) in
  settled st.1 /\ colors st.1 = colors svc
  /\ Forall (above (Fin (45 # 100))) st.2.
Proof.
  intros svc.
  apply (run_ticks_invariant sample_env default_props [None; Some black_frame; None] svc []).
  - apply constructor_settled.
  - constructor.
Defined.

(** A tick whose inference fails leaves the published detections as they
    were. *)
Example tick_failure_keeps_detections :
  UseObjectDetection.tick no_model default_props (Some black_frame)
    (loaded_service failing_session, [candidate_high])
  = (loaded_service failing_session, [candidate_high]).
Proof. reflexivity. Qed.

(** ** Who suppresses whom *)



